(** * Resource pool, credential store and job scheduler: a shallow embedding

    The development follows the three Python modules it verifies:
    [proxy_manager.py] (the resource pool), [account_manager.py] (the
    credential store) and [engagement_scheduler.py] (the timing policy and
    the jobs).  The SQLite tables are lists of rows in rowid order (see
    [Db.rowid_order]), Python exceptions are an explicit error result, and
    the external collaborators
    (the Fernet cipher, the session client, the clock and the random source)
    are parameters or oracle fields. *)

From stdpp Require Import gmap strings list sorting.
From Stdlib Require Import ZArith Lia Floats.SpecFloat Strings.Byte Strings.Ascii.

Local Open Scope Z_scope.

(** ** Python runtime fragments *)

Module Py.

(** The exception classes that the modelled code can raise. *)
Inductive exn :=
| ValueError | TypeError | IndexError | AttributeError | OverflowError
| InvalidToken | IntegrityError.

Inductive res (A : Type) :=
| Ok (a : A)
| Raise (e : exn).
Arguments Ok {A} a.
Arguments Raise {A} e.

#[export] Instance exn_eq_dec : EqDecision exn.
Proof. solve_decision. Defined.

#[export] Instance res_eq_dec {A} `{EqDecision A} : EqDecision (res A).
Proof. solve_decision. Defined.

(** Truthiness of [None]/[str] values: [None] and the empty string are
    falsy. *)
Definition truthy (v : option string) : bool :=
  match v with
  | Some (String _ _) => true
  | _ => false
  end.

(** [python_str if python_str else default]. *)
Definition or_default (v : option string) (d : string) : string :=
  match v with
  | Some (String c s) => String c s
  | _ => d
  end.

(** [str.encode()] and [bytes.decode()]: a Python [str] is identified with
    its UTF-8 bytes, so both are total here. *)
Definition encode (s : string) : list byte := String.list_byte_of_string s.
Definition decode (b : list byte) : string := String.string_of_list_byte b.

(** [list.sort(key=...)] for string keys.  The sort is stable and uses only
    [<] on the keys; a stable sort by a total preorder has one result, which
    the insertion below computes. *)
Section Sort.
Context {A : Type} (key : A → string).

Fixpoint insert_by (x : A) (l : list A) : list A :=
  match l with
  | [] => [x]
  | y :: l' =>
      if String.ltb (key y) (key x) then y :: insert_by x l'
      else x :: y :: l'
  end.

Fixpoint sort_by (l : list A) : list A :=
  match l with
  | [] => []
  | x :: l' => insert_by x (sort_by l')
  end.

(** [x] comes no later than [y] in key order. *)
Definition key_le (x y : A) : Prop := String.leb (key x) (key y) = true.
End Sort.

(** [seq[0]]. *)
Definition first {A} (l : list A) : res A :=
  match l with
  | [] => Raise IndexError
  | x :: _ => Ok x
  end.

(** [random.choice(seq)]: [seq[randbelow(len(seq))]], [IndexError] on an
    empty sequence.  [draw] is the outcome of the random source. *)
Definition choice {A} (draw : nat) (l : list A) : res A :=
  match l with
  | [] => Raise IndexError
  | x :: _ => Ok (nth (draw mod length l)%nat l x)
  end.

End Py.

(** ** The Fernet cipher (third-party collaborator) *)

(** [Fernet(key)] for the configured key: [encrypt] returns a token,
    [decrypt] returns the plaintext or raises [InvalidToken] ([None] here).
    The token's IV and timestamp are not modelled. *)
Class Fernet := {
  fernet_encrypt : list byte → list byte;
  fernet_decrypt : list byte → option (list byte)
}.

(** The library's contract: a token decrypts, under the same key, to the
    message it was made from. *)
Class FernetCorrect `{Fernet} :=
  fernet_decrypt_encrypt : ∀ m, fernet_decrypt (fernet_encrypt m) = Some m.

(** A concrete cipher on which the model can be run: the token is the
    message behind a one-byte tag. *)
Module TagCipher.
Definition tag : byte := Byte.x67.

Definition encrypt (m : list byte) : list byte := tag :: m.
Definition decrypt (t : list byte) : option (list byte) :=
  match t with
  | b :: m => if Byte.eqb b tag then Some m else None
  | [] => None
  end.

#[export] Instance cipher : Fernet :=
  {| fernet_encrypt := encrypt; fernet_decrypt := decrypt |}.

#[export] Instance correct : FernetCorrect.
Proof. intros m. reflexivity. Qed.
End TagCipher.

(** ** The persisted schema ([AccountManager._init_database]) *)

Module Db.

Record account_row := {
  a_id : Z;
  a_username : string;
  a_password_encrypted : option string;
  a_email : option string;
  a_creation_date : option string;
  a_last_login : option string;
  a_proxy_id : option Z;
  a_user_agent : option string;
  a_account_status : string;
  a_karma_post : Z;
  a_karma_comment : Z;
  a_last_post_date : option string;
  a_last_comment_date : option string;
  a_total_posts : Z;
  a_total_comments : Z;
  a_session_data : option string;
  a_metadata : option string
}.

Record proxy_row := {
  p_id : Z;
  p_ip : option string;
  p_port : Z;
  p_username : option string;
  p_password_encrypted : option string;
  p_protocol : option string;
  p_last_used : option string;
  p_status : string;
  p_failure_count : Z
}.

#[export] Instance proxy_row_eq_dec : EqDecision proxy_row.
Proof. solve_decision. Defined.

Record activity_row := {
  l_account_id : Z;
  l_activity_type : string;
  l_activity_date : string;
  l_subreddit : string;
  l_post_id : option string;
  l_comment_id : option string;
  l_status : string;
  l_details : option string
}.

(** What the logger receives, one constructor per message of the modelled
    functions. *)
Inductive log_event :=
| LoadedProxies
| FailedToLoadProxies (e : Py.exn)
| NoAvailableProxies
| AccountDetailsNotFound (username : string)
| OutsideActivityHours (kind username : string)
| NoProxyAvailableFor (kind : string)
| FailedToLogin (username : string)
| NextScheduledIn (kind username : string) (hours : spec_float).

(** The database file together with the logger's output.  [accounts_seq]
    and [proxies_seq] are the AUTOINCREMENT counters of the two tables. *)
Record world := {
  accounts : list account_row;
  accounts_seq : Z;
  proxies : list proxy_row;
  proxies_seq : Z;
  activity_log : list activity_row;
  logger : list log_event
}.

Definition set_proxies (t : list proxy_row) (w : world) : world :=
  {| accounts := accounts w; accounts_seq := accounts_seq w; proxies := t;
     proxies_seq := proxies_seq w; activity_log := activity_log w;
     logger := logger w |}.

Definition set_proxies_seq (n : Z) (w : world) : world :=
  {| accounts := accounts w; accounts_seq := accounts_seq w;
     proxies := proxies w; proxies_seq := n;
     activity_log := activity_log w; logger := logger w |}.

Definition set_accounts (t : list account_row) (w : world) : world :=
  {| accounts := t; accounts_seq := accounts_seq w; proxies := proxies w;
     proxies_seq := proxies_seq w; activity_log := activity_log w;
     logger := logger w |}.

Definition set_accounts_seq (n : Z) (w : world) : world :=
  {| accounts := accounts w; accounts_seq := n; proxies := proxies w;
     proxies_seq := proxies_seq w; activity_log := activity_log w;
     logger := logger w |}.

Definition set_activity_log (t : list activity_row) (w : world) : world :=
  {| accounts := accounts w; accounts_seq := accounts_seq w;
     proxies := proxies w; proxies_seq := proxies_seq w; activity_log := t;
     logger := logger w |}.

Definition log (ev : log_event) (w : world) : world :=
  {| accounts := accounts w; accounts_seq := accounts_seq w;
     proxies := proxies w; proxies_seq := proxies_seq w;
     activity_log := activity_log w; logger := logger w ++ [ev] |}.

(** A table is the list of its rows in rowid order, the order in which a
    SELECT without ORDER BY walks it: [id] is the rowid, so the ids grow
    along the list. *)
Definition rowid_order (ids : list Z) : Prop := StronglySorted Z.lt ids.

(** Two worlds hold the same stored data (they may differ in what was
    logged). *)
Definition same_data (w w' : world) : Prop :=
  accounts w' = accounts w ∧ accounts_seq w' = accounts_seq w ∧
  proxies w' = proxies w ∧ proxies_seq w' = proxies_seq w ∧
  activity_log w' = activity_log w.

End Db.

(** ** Computations over the world that may raise *)

Module Run.
Import Py Db.

Definition M (A : Type) : Type := world → res A * world.

Definition ret {A} (a : A) : M A := λ w, (Ok a, w).
Definition raise {A} (e : exn) : M A := λ w, (Raise e, w).
Definition bind {A B} (m : M A) (k : A → M B) : M B :=
  λ w, match m w with
       | (Ok a, w') => k a w'
       | (Raise e, w') => (Raise e, w')
       end.
Definition lift {A} (r : res A) : M A := λ w, (r, w).
Definition modify (f : world → world) : M unit := λ w, (Ok tt, f w).
Definition get : M world := λ w, (Ok w, w).

End Run.

Notation "x <- m ;; k" := (Run.bind m (λ x, k))
  (at level 100, m at next level, right associativity, only parsing).
Notation "m ;;; k" := (Run.bind m (λ _, k))
  (at level 100, right associativity, only parsing).

(** ** [int(str)] *)

Module PyInt.
Import Py.

(** *** The code points of a [str]

    A [str] is held as its UTF-8 bytes; [code_points] reads them back the
    way the strict decoder of [open(..., encoding='utf-8')] does: shortest
    form only, no surrogate, nothing above U+10FFFF.  Bytes that are no
    UTF-8 give [None]; no [str] that the reader yields has them. *)
Definition continuation (b : N) : bool := ((128 <=? b) && (b <=? 191))%N.

Fixpoint code_points (s : string) : option (list N) :=
  match s with
  | EmptyString => Some []
  | String c1 s1 =>
      let b1 := Ascii.N_of_ascii c1 in
      if (b1 <? 128)%N then cons b1 <$> code_points s1
      else if (b1 <? 194)%N then None
      else if (b1 <? 224)%N then
        match s1 with
        | String c2 s2 =>
            let b2 := Ascii.N_of_ascii c2 in
            if continuation b2
            then cons ((b1 - 192) * 64 + (b2 - 128))%N <$> code_points s2
            else None
        | _ => None
        end
      else if (b1 <? 240)%N then
        match s1 with
        | String c2 (String c3 s3) =>
            let b2 := Ascii.N_of_ascii c2 in
            let b3 := Ascii.N_of_ascii c3 in
            let c := ((b1 - 224) * 4096 + (b2 - 128) * 64 + (b3 - 128))%N in
            if continuation b2 && continuation b3 && (2048 <=? c)%N
               && negb ((55296 <=? c) && (c <=? 57343))%N
            then cons c <$> code_points s3
            else None
        | _ => None
        end
      else if (b1 <? 245)%N then
        match s1 with
        | String c2 (String c3 (String c4 s4)) =>
            let b2 := Ascii.N_of_ascii c2 in
            let b3 := Ascii.N_of_ascii c3 in
            let b4 := Ascii.N_of_ascii c4 in
            let c := ((b1 - 240) * 262144 + (b2 - 128) * 4096
                      + (b3 - 128) * 64 + (b4 - 128))%N in
            if continuation b2 && continuation b3 && continuation b4
               && (65536 <=? c)%N && (c <=? 1114111)%N
            then cons c <$> code_points s4
            else None
        | _ => None
        end
      else None
  end.

(** *** Digits and blanks of the interpreter's character database

    The decimal digits (general category Nd) come in runs of ten, zero
    first; [zeros] lists the first code point of every run, as in the
    database of CPython 3.11 (Unicode 14.0). *)
Definition zeros : list N :=
  [48; 1632; 1776; 1984; 2406; 2534; 2662; 2790; 2918; 3046; 3174; 3302;
   3430; 3558; 3664; 3792; 3872; 4160; 4240; 6112; 6160; 6470; 6608; 6784;
   6800; 6992; 7088; 7232; 7248; 42528; 43216; 43264; 43472; 43504; 43600;
   44016; 65296; 66720; 68912; 69734; 69872; 69942; 70096; 70384; 70736;
   70864; 71248; 71360; 71472; 71904; 72016; 72784; 73040; 73120; 92768;
   92864; 93008; 120782; 120792; 120802; 120812; 120822; 123200; 123632;
   125264; 130032]%N.

(** [Py_UNICODE_TODECIMAL]. *)
Definition decimal (c : N) : option N :=
  (λ z, c - z)%N <$> List.find (λ z, (z <=? c) && (c <? z + 10))%N zeros.

(** [Py_UNICODE_ISSPACE] from U+007F on. *)
Definition unicode_space (c : N) : bool :=
  ((c =? 133) || (c =? 160) || (c =? 5760)
   || ((8192 <=? c) && (c <=? 8202)) || (c =? 8232) || (c =? 8233)
   || (c =? 8239) || (c =? 8287) || (c =? 12288))%N.

(** What [int] makes of a character before it reads the literal: a
    character below U+007F stays, a blank becomes a space, a decimal digit
    its ASCII digit and anything else ['?'].  (A [str] that is all ASCII is
    read as it is; its only character that this changes is U+007F, which is
    no part of a literal either way.) *)
Definition to_ascii (c : N) : N :=
  if (c <? 127)%N then c
  else if unicode_space c then 32%N
  else match decimal c with
       | Some d => (48 + d)%N
       | None => 63%N
       end.

(** *** The literal *)

(** [Py_ISSPACE]: space, [\t], [\n], [\v], [\f], [\r]. *)
Definition is_space (c : N) : bool :=
  ((9 <=? c) && (c <=? 13) || (c =? 32))%N.

Definition digit (c : N) : option Z :=
  if ((48 <=? c) && (c <=? 57))%N then Some (Z.of_N c - 48) else None.

Fixpoint lstrip (s : list N) : list N :=
  match s with
  | c :: s' => if is_space c then lstrip s' else s
  | [] => []
  end.

Definition rstrip (s : list N) : list N := reverse (lstrip (reverse s)).

(** Digits with single underscores between them; [acc] is the value read so
    far and [after_digit] tells whether the previous character was a
    digit. *)
Fixpoint digits (s : list N) (acc : Z) (after_digit : bool) : option Z :=
  match s with
  | [] => if after_digit then Some acc else None
  | c :: s' =>
      match digit c with
      | Some d => digits s' (10 * acc + d) true
      | None =>
          if ((c =? 95)%N && after_digit)%bool then digits s' acc false
          else None
      end
  end.

(** [sys.get_int_max_str_digits()], at its default. *)
Definition max_str_digits : nat := 4300.

Definition count_digits (s : list N) : nat :=
  length (List.filter (λ c, bool_decide (is_Some (digit c))) s).

(** The part after the sign; a literal of more than 4300 digits is
    refused. *)
Definition literal (body : list N) : option Z :=
  if (max_str_digits <? count_digits body)%nat then None
  else digits body 0 false.

Definition parse (s : string) : option Z :=
  match code_points s with
  | None => None
  | Some cs =>
      match rstrip (lstrip (to_ascii <$> cs)) with
      | c :: body =>
          if (c =? 45)%N then Z.opp <$> literal body
          else if (c =? 43)%N then literal body
          else literal (c :: body)
      | [] => None
      end
  end.

(** [int(v)] for what [row.get('port', 0)] can yield: the integer default,
    [None] (a short CSV row) or a string. *)
Inductive arg := OfInt (z : Z) | OfNone | OfStr (s : string).

Definition int (v : arg) : res Z :=
  match v with
  | OfInt z => Ok z
  | OfNone => Raise TypeError
  | OfStr s => match parse s with Some z => Ok z | None => Raise ValueError end
  end.
End PyInt.

(** ** [proxy_manager.py] *)

Module ProxyManager.
Import Py Db Run.

(** The threshold in [failure_count < 5] and [failure_count + 1 >= 5]. *)
Definition threshold : Z := 5.

(** A row of [csv.DictReader]: the header's fields, each a string or
    [None] when the line is short. *)
Abbreviation csv_row := (gmap string (option string)).

(** The dict built by [get_available_proxies]: the selected columns and the
    decrypted ['password']. *)
Record proxy := {
  row : proxy_row;
  password : option string
}.

Definition with_last_used (v : option string) (r : proxy_row) : proxy_row :=
  {| p_id := p_id r; p_ip := p_ip r; p_port := p_port r;
     p_username := p_username r;
     p_password_encrypted := p_password_encrypted r;
     p_protocol := p_protocol r; p_last_used := v;
     p_status := p_status r; p_failure_count := p_failure_count r |}.

Definition with_health (status : string) (count : Z) (r : proxy_row)
  : proxy_row :=
  {| p_id := p_id r; p_ip := p_ip r; p_port := p_port r;
     p_username := p_username r;
     p_password_encrypted := p_password_encrypted r;
     p_protocol := p_protocol r; p_last_used := p_last_used r;
     p_status := status; p_failure_count := count |}.

(** [UPDATE proxies SET ... WHERE id = ?]. *)
Definition update_where_id (id : Z) (f : proxy_row → proxy_row)
    (t : list proxy_row) : list proxy_row :=
  (λ r, if decide (p_id r = id) then f r else r) <$> t.

(** [WHERE status = 'active' AND failure_count < 5]. *)
Definition available (r : proxy_row) : Prop :=
  p_status r = "active" ∧ p_failure_count r < threshold.

#[export] Instance available_dec r : Decision (available r).
Proof. unfold available; apply _. Defined.

Section WithCipher.
Context `{Fernet}.

(** [cipher_suite.decrypt(token.encode()).decode()]. *)
Definition decrypt_str (token : string) : res string :=
  match fernet_decrypt (encode token) with
  | Some m => Ok (decode m)
  | None => Raise InvalidToken
  end.

(** [cipher_suite.encrypt(text.encode()).decode()]. *)
Definition encrypt_str (text : string) : string :=
  decode (fernet_encrypt (encode text)).

(** The body of the loop over [cursor.fetchall()]. *)
Definition to_proxy (r : proxy_row) : res proxy :=
  if truthy (p_password_encrypted r) then
    match decrypt_str (or_default (p_password_encrypted r) "") with
    | Ok pw => Ok {| row := r; password := Some pw |}
    | Raise e => Raise e
    end
  else Ok {| row := r; password := None |}.

Fixpoint to_proxies (rows : list proxy_row) : res (list proxy) :=
  match rows with
  | [] => Ok []
  | r :: rows' =>
      match to_proxy r with
      | Ok p =>
          match to_proxies rows' with
          | Ok ps => Ok (p :: ps)
          | Raise e => Raise e
          end
      | Raise e => Raise e
      end
  end.

Definition get_available_proxies : M (list proxy) :=
  w <- get;;
  lift (to_proxies (filter available (proxies w))).

(** [lambda p: p['last_used'] if p['last_used'] else '1970-01-01']. *)
Definition epoch : string := "1970-01-01".

Definition row_key (r : proxy_row) : string :=
  or_default (p_last_used r) epoch.

Definition sort_key (p : proxy) : string := row_key (row p).

(** [now] is [datetime.now().isoformat()] at the UPDATE. *)
Definition get_next_proxy (now : string) : M (option proxy) :=
  available_proxies <- get_available_proxies;;
  match available_proxies with
  | [] => modify (log NoAvailableProxies);;; ret None
  | _ =>
      proxy <- lift (first (sort_by sort_key available_proxies));;
      modify (λ w, set_proxies
                     (update_where_id (p_id (row proxy))
                        (with_last_used (Some now)) (proxies w)) w);;;
      ret (Some proxy)
  end.

(** [failure_count = failure_count + 1, status = CASE WHEN
    failure_count + 1 >= 5 THEN 'inactive' ELSE status END]; both right
    sides read the row as it was before the UPDATE. *)
Definition failed (r : proxy_row) : proxy_row :=
  with_health
    (if decide (p_failure_count r + 1 >= threshold) then "inactive"
     else p_status r)
    (p_failure_count r + 1) r.

Definition _increment_failure_count (proxy_id : Z) : M unit :=
  modify (λ w, set_proxies (update_where_id proxy_id failed (proxies w)) w).

Definition reset_failure_count (proxy_id : Z) : M unit :=
  modify (λ w, set_proxies
                 (update_where_id proxy_id (with_health "active" 0)
                    (proxies w)) w).

(** [row.get(k)], [row.get('port', 0)], [row.get('protocol', 'http')]. *)
Definition row_get (r : csv_row) (k : string) : option string :=
  default None (r !! k).

Definition row_get_port (r : csv_row) : PyInt.arg :=
  match r !! "port" with
  | None => PyInt.OfInt 0
  | Some None => PyInt.OfNone
  | Some (Some s) => PyInt.OfStr s
  end.

Definition row_get_protocol (r : csv_row) : option string :=
  default (Some "http") (r !! "protocol").

(** [SELECT id FROM proxies WHERE ip = ? AND port = ?]: a NULL parameter
    matches no row. *)
Definition same_endpoint (ip : option string) (port : Z) (r : proxy_row)
  : Prop :=
  match ip with
  | Some s => p_ip r = Some s ∧ p_port r = port
  | None => False
  end.

#[export] Instance same_endpoint_dec ip port r :
  Decision (same_endpoint ip port r).
Proof. destruct ip; apply _. Defined.

(** The rowid an AUTOINCREMENT table gives to a new row: one more than
    the largest ever used. *)
Definition next_id (w : world) : Z :=
  1 + foldr Z.max (proxies_seq w) (p_id <$> proxies w).

Definition insert_proxy (ip : option string) (port : Z)
    (username password_encrypted protocol : option string) : M unit :=
  modify (λ w,
    let id := next_id w in
    set_proxies_seq id
      (set_proxies
         (proxies w ++
            [{| p_id := id; p_ip := ip; p_port := port;
                p_username := username;
                p_password_encrypted := password_encrypted;
                p_protocol := protocol; p_last_used := None;
                p_status := "active"; p_failure_count := 0 |}]) w)).

(** [int(row.get('port', 0))]. *)
Definition parsed_port (r : csv_row) : res Z := PyInt.int (row_get_port r).

(** A Python int given as a parameter of [cursor.execute]: the [sqlite3]
    module raises [OverflowError] for an int outside the signed 64 bits of
    an SQLite INTEGER. *)
Definition bind_int (z : Z) : res Z :=
  if decide (- 2 ^ 63 ≤ z < 2 ^ 63) then Ok z else Raise OverflowError.

(** The port as the SELECT and the INSERT receive it. *)
Definition port_param (r : csv_row) : res Z :=
  match parsed_port r with
  | Ok z => bind_int z
  | Raise e => Raise e
  end.

(** The [password_encrypted] value of the INSERT. *)
Definition encrypted_password (r : csv_row) : option string :=
  if truthy (row_get r "password")
  then Some (encrypt_str (or_default (row_get r "password") ""))
  else None.

(** The body of [for row in reader].  [int(row.get('port', 0))] is
    evaluated and bound for the SELECT and again, with the same outcome, for
    the INSERT. *)
Definition load_row (r : csv_row) : M unit :=
  port <- lift (port_param r);;
  w <- get;;
  if decide (Exists (same_endpoint (row_get r "ip") port) (proxies w))
  then ret tt
  else
    insert_proxy (row_get r "ip") port (row_get r "username")
      (encrypted_password r) (row_get_protocol r).

(** The world after the INSERT of record [r] with port [z]. *)
Definition inserted (r : csv_row) (z : Z) (w : world) : world :=
  snd (insert_proxy (row_get r "ip") z (row_get r "username")
         (encrypted_password r) (row_get_protocol r) w).

Fixpoint load_rows (rows : list csv_row) : M unit :=
  match rows with
  | [] => ret tt
  | r :: rows' => load_row r;;; load_rows rows'
  end.

(** [conn.rollback()]: the tables go back to the snapshot taken when the
    transaction began; what was logged stays. *)
Definition rollback (snapshot w : world) : world :=
  {| accounts := accounts snapshot; accounts_seq := accounts_seq snapshot;
     proxies := proxies snapshot; proxies_seq := proxies_seq snapshot;
     activity_log := activity_log snapshot; logger := logger w |}.

(** [rows] is the content of the CSV file as [csv.DictReader] yields
    it. *)
Definition load_proxies (rows : list csv_row) : M unit :=
  λ w,
    match load_rows rows w with
    | (Ok _, w') => (Ok tt, log LoadedProxies w')
    | (Raise e, w') => (Ok tt, log (FailedToLoadProxies e) (rollback w w'))
    end.

(** A record whose port converts to an integer that SQLite holds. *)
Definition well_formed (r : csv_row) : Prop := ∃ z, port_param r = Ok z.

(** A record that names the host [ip] and the port [port]. *)
Definition has_endpoint (ip : string) (port : Z) (r : csv_row) : Prop :=
  row_get r "ip" = Some ip ∧ port_param r = Ok port.

#[export] Instance has_endpoint_dec ip port r :
  Decision (has_endpoint ip port r).
Proof. unfold has_endpoint. apply _. Defined.


(** The operations of the pool, for runs of several calls. *)
Inductive pool_op :=
| ReportFailure (id : Z)
| ReportHealthy (id : Z)
| AcquireNext (now : string)
| Load (rows : list csv_row).

Definition run_op (op : pool_op) : M unit :=
  match op with
  | ReportFailure id => _increment_failure_count id
  | ReportHealthy id => reset_failure_count id
  | AcquireNext now => get_next_proxy now;;; ret tt
  | Load rows => load_proxies rows
  end.

Fixpoint run_ops (ops : list pool_op) (w : world) : world :=
  match ops with
  | [] => w
  | op :: ops' => run_ops ops' (snd (run_op op w))
  end.

Definition is_failure_of (id : Z) (op : pool_op) : Prop :=
  op = ReportFailure id.

#[export] Instance is_failure_of_dec id op : Decision (is_failure_of id op).
Proof. unfold is_failure_of. destruct op; try (right; discriminate).
  destruct (decide (id0 = id)) as [->|Hne]; [left; reflexivity|].
  right. intros [= Heq]. contradiction. Defined.

End WithCipher.

(** Two rows that agree on every column but [last_used]. *)
Definition same_but_last_used (r r' : proxy_row) : Prop :=
  p_id r' = p_id r ∧ p_ip r' = p_ip r ∧ p_port r' = p_port r ∧
  p_username r' = p_username r ∧
  p_password_encrypted r' = p_password_encrypted r ∧
  p_protocol r' = p_protocol r ∧ p_status r' = p_status r ∧
  p_failure_count r' = p_failure_count r.

End ProxyManager.

(** ** [account_manager.py] *)

Module AccountManager.
Import Py Db Run.

(** The dict returned by [get_account_details]: the columns of the row, with
    ['password_encrypted'] replaced by the decrypted ['password']. *)
Record account_details := {
  details_row : account_row;
  d_password : string
}.

(** A record of the exported frame: the selected columns without [id], and
    the ['password'] column mapped from the id. *)
Record exported := {
  x_username : string;
  x_email : option string;
  x_creation_date : option string;
  x_last_login : option string;
  x_proxy_id : option Z;
  x_account_status : string;
  x_karma_post : Z;
  x_karma_comment : Z;
  x_last_post_date : option string;
  x_last_comment_date : option string;
  x_total_posts : Z;
  x_total_comments : Z;
  x_password : option string
}.

Section WithCipher.
Context `{Fernet}.

(** [self.cipher_suite.encrypt(text.encode()).decode()]. *)
Definition _encrypt (text : string) : string :=
  decode (fernet_encrypt (encode text)).

(** [self.cipher_suite.decrypt(encrypted_text.encode()).decode()]; a NULL
    column is [None], which has no [encode]. *)
Definition _decrypt (encrypted_text : option string) : res string :=
  match encrypted_text with
  | None => Raise AttributeError
  | Some token =>
      match fernet_decrypt (encode token) with
      | Some m => Ok (decode m)
      | None => Raise InvalidToken
      end
  end.

Definition next_id (w : world) : Z :=
  1 + foldr Z.max (accounts_seq w) (a_id <$> accounts w).

(** [now] is [datetime.now().isoformat()], [user_agent] the configured
    agent.  [username] is UNIQUE. *)
Definition _save_account (username password : string) (email : option string)
    (proxy : ProxyManager.proxy) (now : string) (user_agent : option string)
  : M unit :=
  let encrypted_password := _encrypt password in
  w <- get;;
  if decide (Exists (λ a, a_username a = username) (accounts w))
  then raise IntegrityError
  else
    modify (λ w,
      let id := next_id w in
      set_accounts_seq id
        (set_accounts
           (accounts w ++
              [{| a_id := id; a_username := username;
                  a_password_encrypted := Some encrypted_password;
                  a_email := email; a_creation_date := Some now;
                  a_last_login := Some now;
                  a_proxy_id := Some (p_id (ProxyManager.row proxy));
                  a_user_agent := user_agent; a_account_status := "active";
                  a_karma_post := 0; a_karma_comment := 0;
                  a_last_post_date := None; a_last_comment_date := None;
                  a_total_posts := 0; a_total_comments := 0;
                  a_session_data := None; a_metadata := None |}]) w)).

(** [{row[0]: self._decrypt(row[1]) for row in cursor.fetchall()}]. *)
Fixpoint decrypt_all (rows : list account_row) (passwords : gmap Z string)
  : res (gmap Z string) :=
  match rows with
  | [] => Ok passwords
  | a :: rows' =>
      match _decrypt (a_password_encrypted a) with
      | Ok password => decrypt_all rows' (<[a_id a := password]> passwords)
      | Raise e => Raise e
      end
  end.

Definition to_exported (passwords : gmap Z string) (a : account_row)
  : exported :=
  {| x_username := a_username a; x_email := a_email a;
     x_creation_date := a_creation_date a; x_last_login := a_last_login a;
     x_proxy_id := a_proxy_id a; x_account_status := a_account_status a;
     x_karma_post := a_karma_post a; x_karma_comment := a_karma_comment a;
     x_last_post_date := a_last_post_date a;
     x_last_comment_date := a_last_comment_date a;
     x_total_posts := a_total_posts a; x_total_comments := a_total_comments a;
     x_password := passwords !! a_id a |}.

(** The records that [export_accounts] hands to [to_json] or [to_csv]. *)
Definition export_accounts : M (list exported) :=
  w <- get;;
  passwords <- lift (decrypt_all (accounts w) ∅);;
  ret (to_exported passwords <$> accounts w).

(** [SELECT * FROM accounts WHERE username = ?] and [fetchone]. *)
Definition get_account_details (username : string)
  : M (option account_details) :=
  w <- get;;
  match filter (λ a, a_username a = username) (accounts w) with
  | [] => ret None
  | account :: _ =>
      password <- lift (_decrypt (a_password_encrypted account));;
      ret (Some {| details_row := account; d_password := password |})
  end.

End WithCipher.
End AccountManager.

(** ** Python floats *)

(** A Python [float] is an IEEE 754 binary64 number. *)
Module PyFloat.

Definition float : Type := spec_float.
Definition prec : Z := 53.
Definition emax : Z := 1024.

Definition add : float → float → float := SFadd prec emax.
Definition sub : float → float → float := SFsub prec emax.
Definition mul : float → float → float := SFmul prec emax.
Definition div : float → float → float := SFdiv prec emax.
Definition ltb : float → float → bool := SFltb.
Definition leb : float → float → bool := SFleb.

(** The float of an integer literal of the configuration. *)
Definition of_int (z : Z) : float := binary_normalize prec emax z 0 false.

(** [max(a, b)]: [b] replaces [a] only when [b > a]. *)
Definition max (a b : float) : float := if ltb a b then b else a.

(** [random.uniform(a, b)] is [a + (b - a) * random()]; [u] is the outcome of
    [random()]. *)
Definition uniform (a b u : float) : float := add a (mul (sub b a) u).

(** [random.choice([-1, 1])]; [first] tells which element is drawn. *)
Definition choice_sign (first : bool) : float :=
  if first then of_int (-1) else of_int 1.

End PyFloat.

(** ** [engagement_scheduler.py] *)

Module EngagementScheduler.
Import Py Db Run PyFloat.

(** The ["post_frequency"] and ["comment_frequency"] sections; a missing key
    is [None]. *)
Record frequency := {
  min_hours : option float;
  max_hours : option float;
  variance_percent : option float
}.

(** The part of the ["engagement"] section that the jobs read. *)
Record config := {
  post_frequency : frequency;
  comment_frequency : frequency;
  activity_start : option Z;
  activity_end : option Z;
  target_subreddits : list string
}.

(** What the world outside answers during one run of a job: clock readings,
    the session client's results and the draws of the random source.

    [login_ok] is the first component of what [reddit_client.login]
    returns.  With the [Config] of config.py it can only be [false]: inside
    its [try], [login] calls [_type_with_human_delay], whose first statement
    calls [Config.get] with three arguments, one more than it takes, and the
    [TypeError] is caught by [login]'s own handler, which returns
    [(False, None)].  The field is left free, so that the theorems hold of
    the jobs whatever the client answers; the runs that refute a claim take
    it [false]. *)
Record oracle := {
  hour : Z;
  now_proxy : string;
  now_log : string;
  now_account : string;
  login_ok : bool;
  pick_subreddit : nat;
  submitted_post : option string;
  trending_posts : list string;
  pick_post : nat;
  submitted_comment : option string;
  uniform_draw : float;
  sign_draw : bool
}.

(** What a job returns: [schedule.CancelJob], [None] or the hours. *)
Inductive job_return :=
| CancelJob
| ReturnedNone
| Hours (h : float).

(** [start_hour <= current_hour <= end_hour], defaults 8 and 23. *)
Definition _is_within_activity_hours (cfg : config) (current_hour : Z) : bool :=
  let start_hour := default 8 (activity_start cfg) in
  let end_hour := default 23 (activity_end cfg) in
  bool_decide (start_hour ≤ current_hour ≤ end_hour).

Definition _log_activity (account_id : Z) (activity_type now subreddit : string)
    (post_id comment_id : option string) (status : string) : M unit :=
  modify (λ w, set_activity_log
                 (activity_log w ++
                    [{| l_account_id := account_id;
                        l_activity_type := activity_type;
                        l_activity_date := now; l_subreddit := subreddit;
                        l_post_id := post_id; l_comment_id := comment_id;
                        l_status := status; l_details := None |}]) w).

(** [SET last_post_date = ?, total_posts = total_posts + 1]. *)
Definition posted (now : string) (a : account_row) : account_row :=
  {| a_id := a_id a; a_username := a_username a;
     a_password_encrypted := a_password_encrypted a; a_email := a_email a;
     a_creation_date := a_creation_date a; a_last_login := a_last_login a;
     a_proxy_id := a_proxy_id a; a_user_agent := a_user_agent a;
     a_account_status := a_account_status a; a_karma_post := a_karma_post a;
     a_karma_comment := a_karma_comment a; a_last_post_date := Some now;
     a_last_comment_date := a_last_comment_date a;
     a_total_posts := a_total_posts a + 1;
     a_total_comments := a_total_comments a;
     a_session_data := a_session_data a; a_metadata := a_metadata a |}.

(** [SET last_comment_date = ?, total_comments = total_comments + 1]. *)
Definition commented (now : string) (a : account_row) : account_row :=
  {| a_id := a_id a; a_username := a_username a;
     a_password_encrypted := a_password_encrypted a; a_email := a_email a;
     a_creation_date := a_creation_date a; a_last_login := a_last_login a;
     a_proxy_id := a_proxy_id a; a_user_agent := a_user_agent a;
     a_account_status := a_account_status a; a_karma_post := a_karma_post a;
     a_karma_comment := a_karma_comment a;
     a_last_post_date := a_last_post_date a;
     a_last_comment_date := Some now;
     a_total_posts := a_total_posts a;
     a_total_comments := a_total_comments a + 1;
     a_session_data := a_session_data a; a_metadata := a_metadata a |}.

(** [UPDATE accounts SET ... WHERE id = ?]. *)
Definition update_account (id : Z) (f : account_row → account_row) : M unit :=
  modify (λ w, set_accounts
                 ((λ a, if decide (a_id a = id) then f a else a)
                    <$> accounts w) w).

(** [section.get(key, d)] for a numeric key. *)
Definition configured (v : option float) (d : Z) : float :=
  default (of_int d) v.

(** The lines under [# Schedule next post] and [# Schedule next comment]:
    [d_min], [d_max] and [d_var] are the defaults of the three [get]s. *)
Definition jittered_hours (freq : frequency) (d_min d_max d_var : Z)
    (u : float) (sign : bool) : float :=
  let min_hours := configured (min_hours freq) d_min in
  let max_hours := configured (max_hours freq) d_max in
  let variance := div (configured (variance_percent freq) d_var) (of_int 100) in
  let base_hours := uniform min_hours max_hours u in
  let variance_hours := mul (mul base_hours variance) (choice_sign sign) in
  max min_hours (add base_hours variance_hours).

Definition next_post_hours (cfg : config) (o : oracle) : float :=
  jittered_hours (post_frequency cfg) 12 48 20 (uniform_draw o) (sign_draw o).

Definition next_comment_hours (cfg : config) (o : oracle) : float :=
  jittered_hours (comment_frequency cfg) 4 24 30 (uniform_draw o)
    (sign_draw o).

Section WithCipher.
Context `{Fernet}.

(** The job from [# Create Reddit client] on, once [proxy] is acquired.  The
    title and the content are built from fixed non-empty template lists and
    only feed the session client, whose answers are the oracle's. *)
Definition post_with_proxy (cfg : config) (o : oracle) (account_id : Z)
    (username : string) : M job_return :=
  if negb (login_ok o) then
    modify (log (FailedToLogin username));;; ret ReturnedNone
  else
    subreddit <- lift (choice (pick_subreddit o) (target_subreddits cfg));;
    (if truthy (submitted_post o) then
       _log_activity account_id "post" (now_log o) subreddit
         (submitted_post o) None "success";;;
       update_account account_id (posted (now_account o))
     else ret tt);;;
    let next_post_hours := next_post_hours cfg o in
    modify (log (NextScheduledIn "post" username next_post_hours));;;
    ret (Hours next_post_hours).

Definition _create_post_job (cfg : config) (o : oracle) (account_id : Z)
    (username : string) : M job_return :=
  account_details <- AccountManager.get_account_details username;;
  match account_details with
  | None => modify (log (AccountDetailsNotFound username));;; ret CancelJob
  | Some _ =>
      if negb (_is_within_activity_hours cfg (hour o)) then
        modify (log (OutsideActivityHours "post" username));;; ret ReturnedNone
      else
        proxy <- ProxyManager.get_next_proxy (now_proxy o);;
        match proxy with
        | None =>
            modify (log (NoProxyAvailableFor "posting"));;; ret ReturnedNone
        | Some _ => post_with_proxy cfg o account_id username
        end
  end.

Definition comment_with_proxy (cfg : config) (o : oracle) (account_id : Z)
    (username : string) : M job_return :=
  if negb (login_ok o) then
    modify (log (FailedToLogin username));;; ret ReturnedNone
  else
    subreddit <- lift (choice (pick_subreddit o) (target_subreddits cfg));;
    (match trending_posts o with
     | [] => ret tt
     | _ =>
         post <- lift (choice (pick_post o) (trending_posts o));;
         if truthy (submitted_comment o) then
           _log_activity account_id "comment" (now_log o) subreddit
             (Some post) (submitted_comment o) "success";;;
           update_account account_id (commented (now_account o))
         else ret tt
     end);;;
    let next_comment_hours := next_comment_hours cfg o in
    modify (log (NextScheduledIn "comment" username next_comment_hours));;;
    ret (Hours next_comment_hours).

Definition _create_comment_job (cfg : config) (o : oracle) (account_id : Z)
    (username : string) : M job_return :=
  account_details <- AccountManager.get_account_details username;;
  match account_details with
  | None => modify (log (AccountDetailsNotFound username));;; ret CancelJob
  | Some _ =>
      if negb (_is_within_activity_hours cfg (hour o)) then
        modify (log (OutsideActivityHours "comment" username));;;
        ret ReturnedNone
      else
        proxy <- ProxyManager.get_next_proxy (now_proxy o);;
        match proxy with
        | None =>
            modify (log (NoProxyAvailableFor "commenting"));;;
            ret ReturnedNone
        | Some _ => comment_with_proxy cfg o account_id username
        end
  end.

(** The jobs that [_schedule_engagement] registers for an account. *)
Inductive job :=
| PostJob (account_id : Z) (username : string)
| CommentJob (account_id : Z) (username : string).

#[export] Instance job_eq_dec : EqDecision job.
Proof. solve_decision. Defined.

Definition job_username (j : job) : string :=
  match j with PostJob _ username | CommentJob _ username => username end.

Definition job_kind (j : job) : string :=
  match j with PostJob _ _ => "post" | CommentJob _ _ => "comment" end.

(** The word in the job's "No proxy available for ..." message. *)
Definition job_gerund (j : job) : string :=
  match j with PostJob _ _ => "posting" | CommentJob _ _ => "commenting" end.

(** The account id a job was registered with. *)
Definition job_account_id (j : job) : Z :=
  match j with PostJob account_id _ | CommentJob account_id _ => account_id end.

(** What the session client returned for the submission of the job:
    [submit_post]'s value for a post job, [submit_comment]'s for a comment
    job. *)
Definition submission (o : oracle) (j : job) : option string :=
  match j with
  | PostJob _ _ => submitted_post o
  | CommentJob _ _ => submitted_comment o
  end.

(** The part of a job that follows the acquisition of a proxy. *)
Definition job_with_proxy (cfg : config) (o : oracle) (j : job)
  : M job_return :=
  match j with
  | PostJob account_id username => post_with_proxy cfg o account_id username
  | CommentJob account_id username =>
      comment_with_proxy cfg o account_id username
  end.

Definition run_job (cfg : config) (o : oracle) (j : job) : M job_return :=
  match j with
  | PostJob account_id username => _create_post_job cfg o account_id username
  | CommentJob account_id username =>
      _create_comment_job cfg o account_id username
  end.



End WithCipher.




End EngagementScheduler.

(** ** Sample data *)

(** Concrete stores and oracles on which the model is run, with the tag
    cipher. *)
Module Samples.
Import Py Db Run PyFloat.
Import ProxyManager AccountManager EngagementScheduler TagCipher.

Definition proxy_row_of (id : Z) (ip : string) (last_used : option string)
    (status : string) (failures : Z) : proxy_row :=
  {| p_id := id; p_ip := Some ip; p_port := 8080; p_username := None;
     p_password_encrypted := None; p_protocol := Some "http";
     p_last_used := last_used; p_status := status;
     p_failure_count := failures |}.

Definition account_of (id : Z) (username status : string) : account_row :=
  {| a_id := id; a_username := username;
     a_password_encrypted := Some (_encrypt "hunter2");
     a_email := Some "a@example.org";
     a_creation_date := Some "2024-04-01T09:00:00";
     a_last_login := Some "2024-04-01T09:00:00"; a_proxy_id := Some 1;
     a_user_agent := None; a_account_status := status; a_karma_post := 0;
     a_karma_comment := 0; a_last_post_date := None;
     a_last_comment_date := None; a_total_posts := 0;
     a_total_comments := 0; a_session_data := None; a_metadata := None |}.

Definition empty_world : world :=
  {| accounts := []; accounts_seq := 0; proxies := []; proxies_seq := 0;
     activity_log := []; logger := [] |}.

(** P1 was never used, P2 was used a moment ago, P3 is switched off. *)
Definition p1 : proxy_row := proxy_row_of 1 "10.0.0.1" None "active" 0.
Definition p2 : proxy_row :=
  proxy_row_of 2 "10.0.0.2" (Some "2024-05-01T10:00:00") "active" 0.
Definition p3 : proxy_row := proxy_row_of 3 "10.0.0.3" None "inactive" 5.

Definition pool_world : world :=
  set_proxies_seq 3 (set_proxies [p1; p2; p3] empty_world).


(** A store with one active account. *)
Definition active_world : world :=
  set_accounts_seq 1 (set_accounts [account_of 1 "alice" "active"] pool_world).

(** A store in which the secret of the only usable proxy was encrypted under
    another key. *)
Definition stale_secret_world : world :=
  set_proxies
    [{| p_id := 1; p_ip := Some "10.0.0.1"; p_port := 8080;
        p_username := Some "u"; p_password_encrypted := Some "Zm9v";
        p_protocol := Some "http"; p_last_used := None;
        p_status := "active"; p_failure_count := 0 |}] active_world.

Definition record (ip port : string) : csv_row :=
  {[ "ip" := Some ip; "port" := Some port ]}.

(** A batch whose second record has a port that is not a number. *)
Definition bad_batch : list csv_row :=
  [record "10.0.0.1" "8080"; record "10.0.0.2" "80a";
   record "10.0.0.3" "3128"].

(** A batch that names one endpoint twice. *)
Definition twice_batch : list csv_row :=
  [record "10.0.0.1" "8080"; record "10.0.0.1" "8080"].



Definition defaults : frequency :=
  {| min_hours := None; max_hours := None; variance_percent := None |}.

Definition sample_config : config :=
  {| post_frequency := defaults; comment_frequency := defaults;
     activity_start := None; activity_end := None;
     target_subreddits := ["AskReddit"; "pics"] |}.

(** The configuration with an empty list of targets. *)
Definition no_targets : config :=
  {| post_frequency := defaults; comment_frequency := defaults;
     activity_start := None; activity_end := None;
     target_subreddits := [] |}.

(** Ten o'clock, every external call succeeds (a session client whose
    login works), [random()] draws 1/2. *)
Definition good_day : oracle :=
  {| hour := 10; now_proxy := "2024-05-01T10:00:05";
     now_log := "2024-05-01T10:00:40"; now_account := "2024-05-01T10:00:41";
     login_ok := true; pick_subreddit := 0; submitted_post := Some "t3_abc";
     trending_posts := ["t3_xyz"]; pick_post := 0;
     submitted_comment := Some "t1_def";
     uniform_draw := S754_finite false 4503599627370496 (-53);
     sign_draw := true |}.

(** Ten o'clock, and the login fails, as it does with the session client
    under src/. *)
Definition login_fails : oracle :=
  {| hour := 10; now_proxy := now_proxy good_day; now_log := now_log good_day;
     now_account := now_account good_day; login_ok := false;
     pick_subreddit := 0; submitted_post := None; trending_posts := [];
     pick_post := 0; submitted_comment := None;
     uniform_draw := uniform_draw good_day; sign_draw := true |}.


End Samples.

(** ** [proxy_manager.py]: the health sweep *)

Module ProxyHealth.
Import Py Db Run ProxyManager.

(** What the request of [test_proxy] comes to: a response with its status
    code, or an exception raised inside the [try] (building the request
    included). *)
Inductive probe :=
| Responded (status_code : Z)
| Broke.

Section WithCipher.
Context `{Fernet}.

(** [request] is the answer of the world outside for each proxy.  The lines
    written to the logger by these functions are left out. *)
Definition test_proxy (request : proxy → probe) (proxy : proxy) : M bool :=
  match request proxy with
  | Responded status_code =>
      if decide (status_code = 200) then ret true else ret false
  | Broke => _increment_failure_count (p_id (row proxy));;; ret false
  end.

(** [for proxy in available_proxies: if self.test_proxy(proxy): ...]. *)
Fixpoint test_each (request : proxy → probe) (available_proxies : list proxy)
  : M unit :=
  match available_proxies with
  | [] => ret tt
  | proxy :: rest =>
      working <- test_proxy request proxy;;
      (if working then reset_failure_count (p_id (row proxy)) else ret tt);;;
      test_each request rest
  end.

Definition rotate_proxies (request : proxy → probe) : M bool :=
  available_proxies <- get_available_proxies;;
  test_each request available_proxies;;;
  ret true.

(** What the sweep does to the stored row of a tested proxy. *)
Definition swept (request : proxy → probe) (p : proxy) (r : proxy_row)
  : proxy_row :=
  match request p with
  | Responded status_code =>
      if decide (status_code = 200) then with_health "active" 0 r else r
  | Broke => failed r
  end.

End WithCipher.
End ProxyHealth.

(** ** [engagement_scheduler.py]: setting the jobs up *)

Module Scheduling.
Import Py Db Run PyFloat EngagementScheduler.

(** An entry of the job table of the scheduling package:
    [every().day.at(time).do(check_status)],
    [every(hours).hours.do(rotate_proxies)] and
    [every(hours).hours.do(job, account_id, username)]. *)
Inductive entry :=
| StatusAt (time : string)
| RotateEvery (hours : Z)
| EngageEvery (hours : float) (j : job).

(** [WHERE username IN (...) AND account_status = 'active'] when
    [specific_accounts] is a non-empty list, [WHERE account_status =
    'active'] otherwise. *)
Definition selected (specific_accounts : option (list string))
    (a : account_row) : Prop :=
  match specific_accounts with
  | Some (u :: us) => a_username a ∈ u :: us ∧ a_account_status a = "active"
  | _ => a_account_status a = "active"
  end.

#[export] Instance selected_dec specific_accounts a :
  Decision (selected specific_accounts a).
Proof. destruct specific_accounts as [[|u us]|]; simpl; apply _. Defined.

(** The float [0.5]. *)
Definition half : float := div (of_int 1) (of_int 2).

(** The body of [for account in accounts]; [random_at n] is the outcome of
    the [n]-th call of [random()], two calls being made per account. *)
Fixpoint engagement_entries (cfg : config) (random_at : nat → float)
    (n : nat) (accounts : list account_row) : list entry :=
  match accounts with
  | [] => []
  | account :: rest =>
      let min_hours := configured (min_hours (post_frequency cfg)) 12 in
      let first_post_hours := uniform (of_int 1) min_hours (random_at n) in
      let min_comment_hours :=
        configured (EngagementScheduler.min_hours (comment_frequency cfg)) 4 in
      let first_comment_hours :=
        uniform half min_comment_hours (random_at (S n)) in
      EngageEvery first_post_hours
        (PostJob (a_id account) (a_username account))
      :: EngageEvery first_comment_hours
           (CommentJob (a_id account) (a_username account))
      :: engagement_entries cfg random_at (S (S n)) rest
  end.

(** [table] is the job table of the scheduling package. *)
Definition _schedule_engagement (cfg : config) (random_at : nat → float)
    (specific_accounts : option (list string)) (table : list entry)
  : M (list entry) :=
  w <- get;;
  match filter (selected specific_accounts) (accounts w) with
  | [] => ret table
  | accounts => ret (table ++ engagement_entries cfg random_at 0 accounts)
  end.

(** [rotation_frequency] is the configured number of hours. *)
Definition schedule_activities (cfg : config) (rotation_frequency : Z)
    (random_at : nat → float) (accounts : option (list string))
    (table : list entry) : M (list entry) :=
  let table := [] in
  let table := table ++ [StatusAt "04:00"] in
  let table := table ++ [RotateEvery rotation_frequency] in
  _schedule_engagement cfg random_at accounts table.

(** The row [a] with other dates and totals of activity, column by
    column. *)
Definition with_activity (last_post_date last_comment_date : option string)
    (total_posts total_comments : Z) (a : account_row) : account_row :=
  {| a_id := a_id a; a_username := a_username a;
     a_password_encrypted := a_password_encrypted a; a_email := a_email a;
     a_creation_date := a_creation_date a; a_last_login := a_last_login a;
     a_proxy_id := a_proxy_id a; a_user_agent := a_user_agent a;
     a_account_status := a_account_status a; a_karma_post := a_karma_post a;
     a_karma_comment := a_karma_comment a;
     a_last_post_date := last_post_date;
     a_last_comment_date := last_comment_date;
     a_total_posts := total_posts; a_total_comments := total_comments;
     a_session_data := a_session_data a; a_metadata := a_metadata a |}.

End Scheduling.

(** ** [account_manager.py]: the run loop *)

Module RunLoop.
Import Py Db Run Scheduling.

(** [while True: schedule.run_pending(); time.sleep(1)], cut after [ticks]
    turns.  [run_pending] is the poll of the scheduling package (not under
    src/) over its job table; it is the poll that calls the due jobs.  The
    loop has no [try]. *)
Fixpoint poll (run_pending : list entry → M (list entry)) (ticks : nat)
    (table : list entry) : M (list entry) :=
  match ticks with
  | O => ret table
  | S ticks' =>
      table' <- run_pending table;;
      poll run_pending ticks' table'
  end.

(** [run_engagement(scheduled=True, accounts)]; [table] is the job table
    that the call finds. *)
Definition run_engagement (cfg : EngagementScheduler.config)
    (rotation_frequency : Z) (random_at : nat → PyFloat.float)
    (run_pending : list entry → M (list entry))
    (accounts : option (list string)) (table : list entry) (ticks : nat)
  : M (list entry) :=
  table <- schedule_activities cfg rotation_frequency random_at accounts
             table;;
  poll run_pending ticks table.

End RunLoop.

(** ** [config.py] *)

Module Config.
Import Py.

Section Values.
(** [V] is the type of the values of the JSON file. *)
Context {V : Type}.

(** What [get] returns: [None], a value, or a whole section. *)
Inductive got :=
| GotNone
| GotValue (v : V)
| GotSection (s : gmap string V).

(** [self.config.get(section, {})]. *)
Definition section_of (config : gmap string (gmap string V))
    (section : string) : gmap string V :=
  default ∅ (config !! section).

(** [key] is [None] when the argument is left out. *)
Definition get (config : gmap string (gmap string V)) (section : string)
    (key : option string) : got :=
  if truthy key then
    match section_of config section !! or_default key "" with
    | Some v => GotValue v
    | None => GotNone
    end
  else GotSection (section_of config section).

(** The dict after [set]; the file is then written again. *)
Definition set (config : gmap string (gmap string V)) (section key : string)
    (value : V) : gmap string (gmap string V) :=
  <[section := <[key := value]> (section_of config section)]> config.

End Values.
End Config.

(** ** [utils.py]: the activity score *)

Module Utils.
Import PyFloat.

(** The float literal with one decimal, [n / 10]. *)
Definition tenths (n : Z) : float := div (of_int n) (of_int 10).

(** [min(a, b)]: [b] replaces [a] only when [b < a]. *)
Definition min (a b : float) : float := if ltb b a then b else a.

(** [weekday] is [datetime.now().strftime('%A').lower()]. *)
Definition get_weekday_bias (weekday : string) : float :=
  let bias : gmap string float :=
    {[ "monday" := tenths 8; "tuesday" := tenths 9;
       "wednesday" := tenths 10; "thursday" := tenths 10;
       "friday" := tenths 12; "saturday" := tenths 15;
       "sunday" := tenths 13 ]} in
  default (tenths 10) (bias !! weekday).

(** [hour] is [datetime.now().hour]. *)
Definition get_hour_bias (hour : Z) : float :=
  if bool_decide (8 ≤ hour ≤ 10) then tenths 12
  else if bool_decide (12 ≤ hour ≤ 14) then tenths 13
  else if bool_decide (19 ≤ hour ≤ 22) then tenths 15
  else if bool_decide (0 ≤ hour ≤ 5) then tenths 5
  else tenths 10.

(** [u] is the outcome of [random()] inside [random.uniform(0.8, 1.2)]. *)
Definition calculate_activity_score (weekday : string) (hour : Z) (u : float)
  : float :=
  let weekday_bias := get_weekday_bias weekday in
  let hour_bias := get_hour_bias hour in
  let random_factor := uniform (tenths 8) (tenths 12) u in
  min (tenths 10)
    (div (mul (mul weekday_bias hour_bias) random_factor) (tenths 25)).

End Utils.

(** ** [account_manager.py]: generated passwords *)

Module Generated.
Import Py.

Definition chars : string :=
  "abcdefghijklmnopqrstuvwxyzABCDEFGHIJKLMNOPQRSTUVWXYZ0123456789!@#$%^&*()-_=+".

(** [random.choice(chars) for _ in range(n)]; [draw i] is the outcome of the
    random source at the [i]-th character. *)
Fixpoint choices (draw : nat → nat) (i n : nat) : res (list ascii) :=
  match n with
  | O => Ok []
  | S n' =>
      match choice (draw i) (String.list_ascii_of_string chars) with
      | Ok c =>
          match choices draw (S i) n' with
          | Ok cs => Ok (c :: cs)
          | Raise e => Raise e
          end
      | Raise e => Raise e
      end
  end.

(** [range(length)] is empty for a length that is not positive. *)
Definition _generate_password (draw : nat → nat) (length : Z) : res string :=
  match choices draw 0 (Z.to_nat length) with
  | Ok cs => Ok (String.string_of_list_ascii cs)
  | Raise e => Raise e
  end.

End Generated.

(** ** [account_manager.py]: registration *)

Module Registration.
Import Py Db Run ProxyManager AccountManager.

(** What the world outside supplies in one turn of the loop: the clock at
    the acquisition, the generated user name, the draws of the password, the
    answer of the session client and the clock at the INSERT. *)
Record attempt := {
  now_proxy : string;
  username : string;
  password_draws : nat → nat;
  registered : bool;
  now_save : string
}.

(** [row['email']] of the rows that have the key. *)
Definition emails_of (rows : list csv_row) : list (option string) :=
  omap (λ r : csv_row, r !! "email") rows.

Section WithCipher.
Context `{Fernet}.

(** The loop [for i in range(count)], from turn [i] with [remaining] turns
    left.  A turn ends the loop when the emails are used up or no proxy is
    returned; what [_save_account] raises is caught and the loop goes on. *)
Fixpoint register_each (user_agent : option string)
    (attempt_at : nat → attempt) (emails : list (option string))
    (i remaining : nat) (successful_registrations : Z) : M Z :=
  match remaining with
  | O => ret successful_registrations
  | S remaining' =>
      match emails !! i with
      | None => ret successful_registrations
      | Some email =>
          proxy <- get_next_proxy (now_proxy (attempt_at i));;
          match proxy with
          | None => ret successful_registrations
          | Some proxy =>
              password <- lift (Generated._generate_password
                                  (password_draws (attempt_at i)) 16);;
              if registered (attempt_at i) then
                λ w,
                  match _save_account (username (attempt_at i)) password
                          email proxy (now_save (attempt_at i)) user_agent w
                  with
                  | (Ok _, w') =>
                      register_each user_agent attempt_at emails (S i)
                        remaining' (successful_registrations + 1) w'
                  | (Raise _, w') =>
                      register_each user_agent attempt_at emails (S i)
                        remaining' successful_registrations w'
                  end
              else
                register_each user_agent attempt_at emails (S i) remaining'
                  successful_registrations
          end
      end
  end.

(** [accounts_rows] is the content of the accounts file, [None] when it
    cannot be read; [proxies_rows] the content of the proxies file. *)
Definition register_accounts (user_agent : option string)
    (attempt_at : nat → attempt) (accounts_rows : option (list csv_row))
    (proxies_rows : list csv_row) (count : Z) : M bool :=
  match accounts_rows with
  | None => ret false
  | Some rows =>
      match emails_of rows with
      | [] => ret false
      | emails =>
          load_proxies proxies_rows;;;
          available_proxies <- get_available_proxies;;
          match available_proxies with
          | [] => ret false
          | _ =>
              successful_registrations <-
                register_each user_agent attempt_at emails 0 (Z.to_nat count)
                  0;;
              ret (bool_decide (successful_registrations > 0))
          end
      end
  end.

(** A row as [_save_account] makes it in a turn of the loop, for one of the
    emails. *)
Definition registered_row (emails : list (option string)) (a : account_row)
  : Prop :=
  a_account_status a = "active" ∧ a_email a ∈ emails ∧
  a_total_posts a = 0 ∧ a_total_comments a = 0 ∧
  ∃ password, a_password_encrypted a = Some (_encrypt password) ∧
              String.length password = 16%nat.

End WithCipher.
End Registration.

(** ** More sample data *)

Module MoreSamples.
Import Py Db Run PyFloat.
Import ProxyManager AccountManager EngagementScheduler TagCipher Samples.
Import ProxyHealth Scheduling Registration.

(** The probe of proxy 1 answers 200, every other probe raises. *)
Definition only_first_answers (p : proxy) : probe :=
  if decide (p_id (row p) = 1) then Responded 200 else Broke.

(** Five failures reported for proxy 1, with an acquisition and a load in
    between. *)
Definition five_reports : list pool_op :=
  [ReportFailure 1; ReportFailure 1; AcquireNext "2024-05-01T10:00:05";
   ReportFailure 1; Load twice_batch; ReportFailure 1; ReportFailure 2;
   ReportFailure 1].

(** A store whose proxies are all switched off. *)
Definition exhausted_world : world := set_proxies [p3] active_world.

(** A window from 22 to 6. *)
Definition night_shift : config :=
  {| post_frequency := defaults; comment_frequency := defaults;
     activity_start := Some 22; activity_end := Some 6;
     target_subreddits := ["AskReddit"] |}.


(** A store with an active and a suspended account. *)
Definition two_accounts : world :=
  set_accounts_seq 2
    (set_accounts
       [account_of 1 "alice" "active"; account_of 2 "bob" "suspended"]
       pool_world).

End MoreSamples.

(** ** Facts about the Python fragments *)

Module PyFacts.
Import Py.

Lemma ascii_compare_refl (a : ascii) : Ascii.compare a a = Eq.
Proof. unfold Ascii.compare. apply N.compare_refl. Qed.

Lemma string_compare_refl (s : string) : String.compare s s = Eq.
Proof.
  induction s as [|a s IH]; simpl; [reflexivity|].
  rewrite ascii_compare_refl. exact IH.
Qed.

Lemma ascii_compare_trans (a b c : ascii) (o : comparison) :
  o ≠ Eq → Ascii.compare a b = o → Ascii.compare b c = o →
  Ascii.compare a c = o.
Proof.
  unfold Ascii.compare. intros Ho Hab Hbc.
  destruct o; [congruence| |].
  - apply N.compare_lt_iff. apply N.compare_lt_iff in Hab.
    apply N.compare_lt_iff in Hbc. eapply N.lt_trans; eassumption.
  - apply N.compare_gt_iff. apply N.compare_gt_iff in Hab.
    apply N.compare_gt_iff in Hbc. eapply N.lt_trans; eassumption.
Qed.

Lemma string_compare_lt_trans (s1 s2 s3 : string) :
  String.compare s1 s2 = Lt → String.compare s2 s3 = Lt →
  String.compare s1 s3 = Lt.
Proof.
  revert s2 s3.
  induction s1 as [|a s1 IH]; intros [|b s2] [|c s3]; simpl; try congruence.
  destruct (Ascii.compare a b) eqn:Hab; try congruence;
    destruct (Ascii.compare b c) eqn:Hbc; try congruence; intros H12 H23.
  - apply Ascii.compare_eq_iff in Hab, Hbc. subst.
    rewrite ascii_compare_refl. eauto.
  - apply Ascii.compare_eq_iff in Hab. subst. rewrite Hbc. reflexivity.
  - apply Ascii.compare_eq_iff in Hbc. subst. rewrite Hab. reflexivity.
  - rewrite (ascii_compare_trans a b c Lt) by (congruence || assumption).
    reflexivity.
Qed.

Lemma string_leb_refl (s : string) : String.leb s s = true.
Proof. unfold String.leb. rewrite string_compare_refl. reflexivity. Qed.

Lemma string_leb_trans (s1 s2 s3 : string) :
  String.leb s1 s2 = true → String.leb s2 s3 = true →
  String.leb s1 s3 = true.
Proof.
  unfold String.leb.
  destruct (String.compare s1 s2) eqn:H12; try discriminate;
    destruct (String.compare s2 s3) eqn:H23; try discriminate; intros _ _.
  - apply String.compare_eq_iff in H12, H23. subst.
    rewrite string_compare_refl. reflexivity.
  - apply String.compare_eq_iff in H12. subst. rewrite H23. reflexivity.
  - apply String.compare_eq_iff in H23. subst. rewrite H12. reflexivity.
  - rewrite (string_compare_lt_trans s1 s2 s3) by assumption. reflexivity.
Qed.

Lemma string_ltb_false_leb (s1 s2 : string) :
  String.ltb s1 s2 = false → String.leb s2 s1 = true.
Proof.
  unfold String.ltb, String.leb. rewrite (String.compare_antisym s2 s1).
  destruct (String.compare s1 s2); simpl; congruence.
Qed.

Lemma string_ltb_leb (s1 s2 : string) :
  String.ltb s1 s2 = true → String.leb s1 s2 = true.
Proof.
  unfold String.ltb, String.leb. destruct (String.compare s1 s2); congruence.
Qed.

Lemma string_ltb_not_leb (s1 s2 : string) :
  String.ltb s1 s2 = true → String.leb s2 s1 = true → False.
Proof.
  unfold String.ltb, String.leb. rewrite (String.compare_antisym s2 s1).
  destruct (String.compare s1 s2); simpl; congruence.
Qed.

Section SortFacts.
Context {A : Type} (key : A → string).

Lemma insert_by_elem (x y : A) (l : list A) :
  y ∈ insert_by key x l ↔ y = x ∨ y ∈ l.
Proof.
  induction l as [|z l IH]; simpl.
  - rewrite list_elem_of_singleton, elem_of_nil. tauto.
  - destruct (String.ltb (key z) (key x)).
    + rewrite !elem_of_cons, IH. tauto.
    + rewrite !elem_of_cons. tauto.
Qed.

Lemma sort_by_elem (y : A) (l : list A) : y ∈ sort_by key l ↔ y ∈ l.
Proof.
  induction l as [|x l IH]; simpl; [reflexivity|].
  rewrite insert_by_elem, elem_of_cons, IH. reflexivity.
Qed.

Lemma insert_by_sorted (x : A) (l : list A) :
  StronglySorted (key_le key) l → StronglySorted (key_le key) (insert_by key x l).
Proof.
  induction 1 as [|z l Hl IH Hz]; simpl.
  - repeat constructor.
  - destruct (String.ltb (key z) (key x)) eqn:Hlt.
    + constructor; [exact IH|].
      apply Forall_forall. intros y Hy. apply insert_by_elem in Hy as [->|Hy].
      * apply string_ltb_leb, Hlt.
      * rewrite Forall_forall in Hz. auto.
    + apply string_ltb_false_leb in Hlt.
      constructor; [constructor; assumption|].
      constructor; [exact Hlt|].
      eapply Forall_impl; [exact Hz|].
      intros y Hy. eapply string_leb_trans; eassumption.
Qed.

Lemma sort_by_sorted (l : list A) : StronglySorted (key_le key) (sort_by key l).
Proof.
  induction l as [|x l IH]; simpl; [constructor|].
  apply insert_by_sorted, IH.
Qed.

(** The first element of the sorted list is a member of the list with the
    least key. *)
Lemma first_sort_by (l : list A) (x : A) :
  first (sort_by key l) = Ok x → x ∈ l ∧ ∀ y, y ∈ l → key_le key x y.
Proof.
  intros Hfirst. pose proof (sort_by_sorted l) as Hs.
  destruct (sort_by key l) as [|x' s] eqn:Hsort; simpl in Hfirst;
    [discriminate|].
  injection Hfirst as ->.
  split.
  - apply sort_by_elem. rewrite Hsort. left.
  - intros y Hy. apply sort_by_elem in Hy. rewrite Hsort in Hy.
    apply elem_of_cons in Hy as [->|Hy].
    + apply string_leb_refl.
    + inversion Hs as [|? ? _ Hall]; subst.
      rewrite Forall_forall in Hall. auto.
Qed.

Lemma first_sort_by_nonempty (l : list A) :
  l ≠ [] → ∃ x, first (sort_by key l) = Ok x.
Proof.
  intros Hl. destruct (sort_by key l) as [|x s] eqn:Hsort; simpl; [|eauto].
  destruct l as [|y l]; [congruence|].
  assert (y ∈ sort_by key (y :: l)) as Hy by (apply sort_by_elem; left).
  rewrite Hsort in Hy. inversion Hy.
Qed.

End SortFacts.
End PyFacts.

(** ** The resource pool *)

Module PoolFacts.
Import Py Db Run ProxyManager PyFacts.

Section WithCipher.
Context `{Fernet}.

Lemma to_proxy_row (r : proxy_row) (p : proxy) : to_proxy r = Ok p → row p = r.
Proof.
  unfold to_proxy. destruct (truthy _); [destruct (decrypt_str _)|];
    intros [= <-]; reflexivity.
Qed.

Lemma to_proxy_raise (r : proxy_row) (e : exn) :
  to_proxy r = Raise e → e = InvalidToken.
Proof.
  unfold to_proxy, decrypt_str.
  destruct (truthy _); [destruct (fernet_decrypt _)|]; congruence.
Qed.

Lemma to_proxies_rows (rows : list proxy_row) (ps : list proxy) :
  to_proxies rows = Ok ps → row <$> ps = rows.
Proof.
  revert ps. induction rows as [|r rows IH]; simpl; intros ps.
  - intros [= <-]. reflexivity.
  - destruct (to_proxy r) as [p|] eqn:Hp; [|discriminate].
    destruct (to_proxies rows) as [ps'|]; [|discriminate].
    intros [= <-]. rewrite fmap_cons, (to_proxy_row _ _ Hp).
    f_equal. apply IH. reflexivity.
Qed.

Lemma to_proxies_raise (rows : list proxy_row) (e : exn) :
  to_proxies rows = Raise e → e = InvalidToken ∧ rows ≠ [].
Proof.
  induction rows as [|r rows IH]; simpl; [discriminate|].
  destruct (to_proxy r) as [p|e'] eqn:Hp.
  - destruct (to_proxies rows); [discriminate|].
    intros [= <-]. split; [apply IH; reflexivity|discriminate].
  - intros [= <-]. split; [eapply to_proxy_raise; eassumption|discriminate].
Qed.

Lemma to_proxies_total (rows : list proxy_row) :
  Forall (λ r, ∃ p, to_proxy r = Ok p) rows → ∃ ps, to_proxies rows = Ok ps.
Proof.
  induction 1 as [|r rows [p Hp] _ [ps Hps]]; simpl; [eauto|].
  rewrite Hp, Hps. eauto.
Qed.

(** The three ways [get_next_proxy] can end. *)
Lemma get_next_proxy_cases (now : string) (w : world) :
  (to_proxies (filter available (proxies w)) = Raise InvalidToken ∧
   filter available (proxies w) ≠ [] ∧
   get_next_proxy now w = (Raise InvalidToken, w))
  ∨ (filter available (proxies w) = [] ∧
     get_next_proxy now w = (Ok None, log NoAvailableProxies w))
  ∨ (∃ ps p, to_proxies (filter available (proxies w)) = Ok ps ∧
       first (sort_by sort_key ps) = Ok p ∧
       get_next_proxy now w =
         (Ok (Some p),
          set_proxies (update_where_id (p_id (row p))
                         (with_last_used (Some now)) (proxies w)) w)).
Proof.
  unfold get_next_proxy, get_available_proxies, bind, get, lift, modify, ret.
  destruct (to_proxies (filter available (proxies w))) as [ps|e] eqn:Hps.
  - destruct ps as [|p0 ps].
    + right; left. split; [|reflexivity].
      apply to_proxies_rows in Hps. symmetry. exact Hps.
    + right; right.
      destruct (first_sort_by_nonempty sort_key (p0 :: ps)) as [p Hp];
        [discriminate|].
      exists (p0 :: ps), p. rewrite Hp. auto.
  - left. destruct (to_proxies_raise _ _ Hps) as [-> Hne]. auto.
Qed.

Lemma chosen_is_available (w : world) (ps : list proxy) (p : proxy) :
  to_proxies (filter available (proxies w)) = Ok ps →
  first (sort_by sort_key ps) = Ok p →
  row p ∈ proxies w ∧ available (row p) ∧
  ∀ r, r ∈ proxies w → available r →
       String.leb (sort_key p) (row_key r) = true.
Proof.
  intros Hps Hp. apply to_proxies_rows in Hps.
  apply first_sort_by in Hp as [Hin Hmin].
  assert (row p ∈ filter available (proxies w)) as Hrow.
  { rewrite <- Hps. apply list_elem_of_fmap. eauto. }
  apply list_elem_of_filter in Hrow as [Hav Hmem].
  split; [exact Hmem|]. split; [exact Hav|].
  intros r Hr Hr_av.
  assert (r ∈ row <$> ps) as Hr_ps.
  { rewrite Hps. apply list_elem_of_filter. auto. }
  apply list_elem_of_fmap in Hr_ps as (q & -> & Hq).
  exact (Hmin q Hq).
Qed.

Lemma filter_available_nil (t : list proxy_row) :
  filter available t = [] ↔ Forall (λ r, ¬ available r) t.
Proof.
  rewrite Forall_forall. split.
  - intros Hnil r Hr Hav.
    assert (r ∈ filter available t) as Hin by (apply list_elem_of_filter; auto).
    rewrite Hnil in Hin. inversion Hin.
  - intros Hall. destruct (filter available t) as [|r l] eqn:Hf; [reflexivity|].
    assert (r ∈ filter available t) as Hin by (rewrite Hf; left).
    apply list_elem_of_filter in Hin as [Hav Hr]. destruct (Hall r Hr Hav).
Qed.

(** C1: [get_next_proxy] returns only a proxy that is stored with status
    ['active'] and a failure count below 5; when no stored proxy qualifies it
    returns [None]; when some proxy qualifies, whatever it returns qualifies
    (the only other outcome is [InvalidToken] from a stored secret that does
    not decrypt), and it does return one when the stored secrets decrypt. *)
Theorem get_next_proxy_available (now : string) (w : world) :
  (∀ p w', get_next_proxy now w = (Ok (Some p), w') →
     row p ∈ proxies w ∧ p_status (row p) = "active" ∧
     p_failure_count (row p) < 5)
  ∧ (Forall (λ r, ¬ available r) (proxies w) →
     get_next_proxy now w = (Ok None, log NoAvailableProxies w))
  ∧ (Exists available (proxies w) →
     (∃ p w', get_next_proxy now w = (Ok (Some p), w') ∧
        p_status (row p) = "active" ∧ p_failure_count (row p) < 5)
     ∨ get_next_proxy now w = (Raise InvalidToken, w))
  ∧ (Exists available (proxies w) →
     Forall (λ r, available r → ∃ p, to_proxy r = Ok p) (proxies w) →
     ∃ p w', get_next_proxy now w = (Ok (Some p), w') ∧
       p_status (row p) = "active" ∧ p_failure_count (row p) < 5).
Proof.
  assert (∀ p w', get_next_proxy now w = (Ok (Some p), w') →
            row p ∈ proxies w ∧ available (row p)) as Hsome.
  { intros p w' Hrun.
    destruct (get_next_proxy_cases now w)
      as [(_ & _ & Hr)|[(_ & Hr)|(ps & q & Hps & Hq & Hr)]];
      rewrite Hr in Hrun; try discriminate.
    injection Hrun as <- _.
    destruct (chosen_is_available w ps q Hps Hq) as (? & ? & _). auto. }
  assert (Exists available (proxies w) →
          (∃ p w', get_next_proxy now w = (Ok (Some p), w') ∧
             p_status (row p) = "active" ∧ p_failure_count (row p) < 5)
          ∨ get_next_proxy now w = (Raise InvalidToken, w)) as Hex.
  { intros Hex.
    destruct (get_next_proxy_cases now w)
      as [(_ & _ & Hr)|[(Hnil & _)|(ps & q & Hps & Hq & Hr)]].
    - right. exact Hr.
    - apply filter_available_nil in Hnil. apply Exists_exists in Hex.
      destruct Hex as (r & Hr & Hav). rewrite Forall_forall in Hnil.
      destruct (Hnil r Hr Hav).
    - left. exists q. eexists. split; [exact Hr|].
      destruct (chosen_is_available w ps q Hps Hq) as (_ & Hav & _).
      exact Hav. }
  split; [|split; [|split]].
  - intros p w' Hrun. destruct (Hsome p w' Hrun) as [Hin [Hst Hfc]]. auto.
  - intros Hnone. apply filter_available_nil in Hnone.
    destruct (get_next_proxy_cases now w)
      as [(_ & Hne & _)|[(_ & Hr)|(ps & q & Hps & Hq & _)]].
    + contradiction.
    + exact Hr.
    + apply to_proxies_rows in Hps. rewrite Hnone in Hps.
      destruct ps; [discriminate|discriminate].
  - exact Hex.
  - intros Hsomeav Hdec. destruct (Hex Hsomeav) as [Hok|Hraise]; [exact Hok|].
    destruct (to_proxies_total (filter available (proxies w))) as [ps Hps].
    { apply Forall_forall. intros r Hr.
      apply list_elem_of_filter in Hr as [Hav Hr].
      rewrite Forall_forall in Hdec. auto. }
    destruct (get_next_proxy_cases now w)
      as [(Hr & _ & _)|[(_ & Hr)|(ps' & q & _ & _ & Hr)]].
    + rewrite Hps in Hr. discriminate.
    + rewrite Hr in Hraise. discriminate.
    + rewrite Hr in Hraise. discriminate.
Qed.

Lemma or_default_some (t d : string) :
  or_default (Some t) d = if decide (t = "") then d else t.
Proof. destruct t; reflexivity. Qed.

Lemma update_where_id_lookup (id : Z) (f : proxy_row → proxy_row)
    (t : list proxy_row) (k : nat) :
  update_where_id id f t !! k =
  (λ r, if decide (p_id r = id) then f r else r) <$> t !! k.
Proof. unfold update_where_id. apply list_lookup_fmap. Qed.

Lemma update_where_id_elem (id : Z) (f : proxy_row → proxy_row)
    (t : list proxy_row) (r' : proxy_row) :
  r' ∈ update_where_id id f t ↔
  ∃ r, r ∈ t ∧ r' = if decide (p_id r = id) then f r else r.
Proof.
  unfold update_where_id. rewrite list_elem_of_fmap.
  split; intros (r & ? & ?); exists r; auto.
Qed.


Lemma update_where_id_last_used (id : Z) (now : string) (t : list proxy_row) :
  Forall2
    (λ r r', if decide (p_id r = id)
             then same_but_last_used r r' ∧ p_last_used r' = Some now
             else r' = r)
    t (update_where_id id (with_last_used (Some now)) t).
Proof.
  induction t as [|r t IH]; simpl; constructor; [|exact IH].
  destruct (decide (p_id r = id)); [|reflexivity].
  unfold same_but_last_used. simpl. tauto.
Qed.

(** C10: a successful [get_next_proxy] changes nothing but the [last_used]
    column of the stored rows that carry the returned id (one row, the id
    being the primary key): accounts, activity log, the other proxies and the
    other columns stay as they were; when it returns [None] or raises, the
    stored data is unchanged. *)
Theorem get_next_proxy_frame (now : string) (w : world) :
  match get_next_proxy now w with
  | (Ok (Some p), w') =>
      accounts w' = accounts w ∧ accounts_seq w' = accounts_seq w ∧
      activity_log w' = activity_log w ∧
      proxies_seq w' = proxies_seq w ∧ logger w' = logger w ∧
      Forall2
        (λ r r', if decide (p_id r = p_id (row p))
                 then same_but_last_used r r' ∧ p_last_used r' = Some now
                 else r' = r)
        (proxies w) (proxies w')
  | (_, w') => same_data w w'
  end.
Proof.
  destruct (get_next_proxy_cases now w)
    as [(_ & _ & Hr)|[(_ & Hr)|(ps & q & _ & _ & Hr)]]; rewrite Hr.
  - repeat split.
  - repeat split.
  - simpl. repeat (split; [reflexivity|]).
    apply update_where_id_last_used.
Qed.

(** *** Failure counting *)

Lemma load_rows_extends (rows : list csv_row) (w : world) :
  ∃ extra, proxies (snd (load_rows rows w)) = proxies w ++ extra.
Proof.
  revert w. induction rows as [|r rows IH]; intros w; simpl.
  - exists []. rewrite app_nil_r. reflexivity.
  - unfold bind at 1, load_row, bind, lift, get, ret.
    destruct (port_param r) as [port|e]; simpl.
    + destruct (decide (Exists _ (proxies w))).
      * apply IH.
      * unfold insert_proxy, modify.
        match goal with |- context [load_rows rows ?w1] =>
          destruct (IH w1) as [extra Hextra] end.
        rewrite Hextra. simpl. rewrite <- app_assoc. eauto.
    + exists []. rewrite app_nil_r. reflexivity.
Qed.

Lemma load_proxies_extends (rows : list csv_row) (w : world) :
  ∃ extra, proxies (snd (load_proxies rows w)) = proxies w ++ extra.
Proof.
  unfold load_proxies. destruct (load_rows_extends rows w) as [extra Hextra].
  destruct (load_rows rows w) as [[[]|e] w1]; simpl in *.
  - eauto.
  - exists []. rewrite app_nil_r. reflexivity.
Qed.

(** The health columns of the row at position [k] after one operation that
    is not [ReportHealthy] of its id. *)
Lemma run_op_health (op : pool_op) (w : world) (k : nat) (r : proxy_row) :
  proxies w !! k = Some r →
  op ≠ ReportHealthy (p_id r) →
  ∃ r', proxies (snd (run_op op w)) !! k = Some r' ∧ p_id r' = p_id r ∧
    if decide (is_failure_of (p_id r) op)
    then p_failure_count r' = p_failure_count r + 1 ∧
         p_status r' = p_status (failed r)
    else p_failure_count r' = p_failure_count r ∧ p_status r' = p_status r.
Proof.
  intros Hk Hop.
  destruct (decide (is_failure_of (p_id r) op)) as [Hf|Hf].
  { rewrite Hf. simpl. rewrite update_where_id_lookup, Hk. simpl.
    rewrite decide_True by reflexivity. eauto. }
  destruct op as [id|id|now|rows]; simpl.
  - rewrite update_where_id_lookup, Hk. simpl.
    rewrite decide_False; [eauto|].
    intros <-. apply Hf. reflexivity.
  - rewrite update_where_id_lookup, Hk. simpl.
    rewrite decide_False by congruence. eauto.
  - unfold bind, ret.
    destruct (get_next_proxy_cases now w)
      as [(_ & _ & Hr)|[(_ & Hr)|(ps & q & _ & _ & Hr)]]; rewrite Hr; simpl.
    + eauto.
    + eauto.
    + rewrite update_where_id_lookup, Hk. simpl.
      destruct (decide (p_id r = p_id (row q)));
        eexists; (split; [reflexivity|]); auto.
  - destruct (load_proxies_extends rows w) as [extra ->].
    exists r. split; [|auto].
    apply lookup_app_l_Some. exact Hk.
Qed.

Lemma run_ops_health (ops : list pool_op) :
  ∀ (w : world) (k : nat) (r : proxy_row),
  proxies w !! k = Some r →
  Forall (λ op, op ≠ ReportHealthy (p_id r)) ops →
  (p_status r = if decide (threshold ≤ p_failure_count r)
                then "inactive" else "active") →
  ∃ r', proxies (run_ops ops w) !! k = Some r' ∧ p_id r' = p_id r ∧
    let n := Z.of_nat (length (filter (is_failure_of (p_id r)) ops)) in
    p_failure_count r' = p_failure_count r + n ∧
    p_status r' = if decide (threshold ≤ p_failure_count r + n)
                  then "inactive" else "active".
Proof.
  induction ops as [|op ops IH]; intros w k r Hk Hops Hst; simpl.
  - exists r. rewrite Z.add_0_r. auto.
  - inversion Hops as [|? ? Hop Hops']; subst.
    destruct (run_op_health op w k r Hk Hop) as (r1 & Hk1 & Hid1 & Hstep).
    rewrite <- Hid1 in Hops'.
    destruct (IH _ k r1 Hk1 Hops') as (r' & Hk' & Hid' & Hfc' & Hst').
    + destruct (decide (is_failure_of (p_id r) op)) as [_|_];
        destruct Hstep as [Hfc1 Hst1]; rewrite Hst1, Hfc1.
      * unfold failed. simpl. unfold threshold in *.
        repeat case_decide; try lia; congruence.
      * exact Hst.
    + exists r'. split; [exact Hk'|]. split; [congruence|].
      rewrite Hid1 in Hfc', Hst'. rewrite filter_cons.
      destruct (decide (is_failure_of (p_id r) op)) as [_|_];
        destruct Hstep as [Hfc1 _]; rewrite Hfc1 in Hfc', Hst'; simpl length.
      * rewrite Nat2Z.inj_succ.
        replace (p_failure_count r + Z.succ _)
          with (p_failure_count r + 1 +
                Z.of_nat (length (filter (is_failure_of (p_id r)) ops)))
          by lia.
        auto.
      * auto.
Qed.

(** C2: one [_increment_failure_count] adds exactly one to the counter of
    the row with that id and sets its status to ['inactive'] exactly when the
    counter after the increment is at least 5 (otherwise the status stays),
    leaving that row's other columns and the other rows alone; so a row that starts at count 0 and status
    ['active'] has, after any run of pool operations without a reset of its
    id, a count equal to the number of failures reported for it, and status
    ['inactive'] exactly when that number is at least 5: in particular after
    five consecutive reports. *)
Theorem five_failures_deactivate (w : world) (k : nat) (r : proxy_row) :
  proxies w !! k = Some r →
  (∀ id, proxies (snd (_increment_failure_count id w)) !! k =
         Some (if decide (p_id r = id) then failed r else r))
  ∧ p_failure_count (failed r) = p_failure_count r + 1
  ∧ p_status (failed r) =
      (if decide (p_failure_count r + 1 >= 5) then "inactive" else p_status r)
  ∧ with_health (p_status r) (p_failure_count r) (failed r) = r
  ∧ (p_failure_count r = 0 → p_status r = "active" →
     (∃ r', proxies
              (run_ops (replicate 5 (ReportFailure (p_id r))) w) !! k = Some r'
            ∧ p_failure_count r' = 5 ∧ p_status r' = "inactive")
     ∧ ∀ ops, Forall (λ op, op ≠ ReportHealthy (p_id r)) ops →
       ∃ r', proxies (run_ops ops w) !! k = Some r' ∧ p_id r' = p_id r ∧
         let n := Z.of_nat (length (filter (is_failure_of (p_id r)) ops)) in
         p_failure_count r' = n ∧
         (p_status r' = "inactive" ↔ 5 ≤ n) ∧
         (p_status r' = "active" ↔ n < 5)).
Proof.
  intros Hk. split; [|split; [|split; [|split]]].
  - intros id. simpl. rewrite update_where_id_lookup, Hk. reflexivity.
  - reflexivity.
  - reflexivity.
  - destruct r; reflexivity.
  - intros Hfc Hst.
    assert (∀ ops, Forall (λ op, op ≠ ReportHealthy (p_id r)) ops →
       ∃ r', proxies (run_ops ops w) !! k = Some r' ∧ p_id r' = p_id r ∧
         let n := Z.of_nat (length (filter (is_failure_of (p_id r)) ops)) in
         p_failure_count r' = n ∧
         (p_status r' = "inactive" ↔ 5 ≤ n) ∧
         (p_status r' = "active" ↔ n < 5)) as Hgen.
    { intros ops Hops.
      destruct (run_ops_health ops w k r Hk Hops) as (r' & Hk' & Hid & Hn & Hs).
      { rewrite Hfc, Hst. reflexivity. }
      exists r'. split; [exact Hk'|]. split; [exact Hid|].
      simpl in *. rewrite Hfc in Hn, Hs. rewrite Z.add_0_l in Hn, Hs.
      split; [exact Hn|]. rewrite Hs. clear Hs. unfold threshold.
      case_decide; (split; split; intros; first [lia|congruence]). }
    split; [|exact Hgen].
    destruct (Hgen (replicate 5 (ReportFailure (p_id r))))
      as (r' & Hk' & _ & Hn & Hinact & _).
    { apply Forall_replicate. discriminate. }
    exists r'. split; [exact Hk'|].
    assert (length (filter (is_failure_of (p_id r))
                      (replicate 5 (ReportFailure (p_id r)))) = 5%nat) as Hlen.
    { simpl. rewrite !filter_cons, !decide_True by reflexivity.
      reflexivity. }
    cbv zeta in Hn, Hinact. rewrite Hlen in Hn, Hinact.
    split; [exact Hn|]. apply Hinact. simpl. lia.
Qed.

(** *** Loading *)

Lemma load_row_ok (r : csv_row) (z : Z) (w : world) :
  port_param r = Ok z →
  load_row r w =
  (Ok tt,
   if decide (Exists (same_endpoint (row_get r "ip") z) (proxies w))
   then w else inserted r z w).
Proof.
  intros Hz. unfold load_row, bind, lift, get, ret. rewrite Hz. simpl.
  destruct (decide (Exists _ (proxies w))); reflexivity.
Qed.

Lemma load_row_raise (r : csv_row) (e : exn) (w : world) :
  port_param r = Raise e → load_row r w = (Raise e, w).
Proof.
  intros He. unfold load_row, bind, lift. rewrite He. reflexivity.
Qed.

Lemma port_param_raise (r : csv_row) (e : exn) :
  port_param r = Raise e →
  e = ValueError ∨ e = TypeError ∨ e = OverflowError.
Proof.
  unfold port_param, parsed_port, bind_int, PyInt.int.
  destruct (row_get_port r) as [z| |s].
  - case_decide; [discriminate|intros [= <-]; auto].
  - intros [= <-]; auto.
  - destruct (PyInt.parse s) as [z|]; [|intros [= <-]; auto].
    case_decide; [discriminate|intros [= <-]; auto].
Qed.


Lemma inserted_frame (r : csv_row) (z : Z) (w : world) :
  accounts (inserted r z w) = accounts w ∧
  activity_log (inserted r z w) = activity_log w ∧
  logger (inserted r z w) = logger w ∧
  ∃ new, proxies (inserted r z w) = proxies w ++ [new] ∧
         p_ip new = row_get r "ip" ∧ p_port new = z ∧
         p_status new = "active" ∧ p_failure_count new = 0.
Proof. unfold inserted. simpl. eauto 10. Qed.

(** A batch with a record whose port does not convert raises, and raises
    nothing but [ValueError], [TypeError] or [OverflowError]. *)
Lemma load_rows_raise (rows : list csv_row) (w : world) :
  Exists (λ r, ¬ well_formed r) rows →
  ∃ e w', load_rows rows w = (Raise e, w') ∧
          (e = ValueError ∨ e = TypeError ∨ e = OverflowError) ∧
          logger w' = logger w.
Proof.
  intros Hex. revert w.
  induction rows as [|r rows IH]; intros w; [inversion Hex|].
  simpl. unfold bind at 1.
  destruct (port_param r) as [z|e] eqn:Hport.
  - rewrite (load_row_ok r z w Hport).
    assert (Exists (λ r, ¬ well_formed r) rows) as Hrest.
    { inversion Hex as [? ? Hbad|]; subst; [|assumption].
      destruct Hbad. exists z. exact Hport. }
    destruct (decide (Exists _ (proxies w))).
    + apply IH. exact Hrest.
    + destruct (IH Hrest (inserted r z w)) as (e & w' & Hrun & He & Hlog).
      exists e, w'. split; [exact Hrun|]. split; [exact He|].
      rewrite Hlog. apply inserted_frame.
  - rewrite (load_row_raise r e w Hport).
    exists e, w. split; [reflexivity|].
    split; [eapply port_param_raise; eassumption|reflexivity].
Qed.

(** A batch of well-formed records runs to its end; every record then has a
    stored row with its host and port. *)
Lemma load_rows_ok (rows : list csv_row) (w : world) :
  Forall well_formed rows →
  ∃ w', load_rows rows w = (Ok tt, w') ∧
    accounts w' = accounts w ∧ activity_log w' = activity_log w ∧
    logger w' = logger w ∧
    (∃ extra, proxies w' = proxies w ++ extra) ∧
    ∀ r z, r ∈ rows → port_param r = Ok z →
      Exists (λ row, p_ip row = row_get r "ip" ∧ p_port row = z) (proxies w').
Proof.
  intros Hwf. revert w.
  induction Hwf as [|r rows [z Hz] _ IH]; intros w.
  - exists w. simpl. repeat split; try reflexivity.
    + exists []. rewrite app_nil_r. reflexivity.
    + intros r z Hr. inversion Hr.
  - simpl. unfold bind at 1. rewrite (load_row_ok r z w Hz).
    set (w1 := if decide (Exists (same_endpoint (row_get r "ip") z) (proxies w))
               then w else inserted r z w).
    assert (accounts w1 = accounts w ∧ activity_log w1 = activity_log w ∧
            logger w1 = logger w ∧
            (∃ extra, proxies w1 = proxies w ++ extra) ∧
            Exists (λ row, p_ip row = row_get r "ip" ∧ p_port row = z)
              (proxies w1)) as (Ha1 & Hl1 & Hg1 & [ex1 Hp1] & Hhere).
    { subst w1. destruct (decide (Exists _ (proxies w))) as [Hex|Hnex].
      - repeat split; try reflexivity.
        + exists []. rewrite app_nil_r. reflexivity.
        + eapply Exists_impl; [exact Hex|]. intros row Hrow.
          unfold same_endpoint in Hrow.
          destruct (row_get r "ip"); [|contradiction].
          destruct Hrow. auto.
      - destruct (inserted_frame r z w)
          as (Ha & Hl & Hg & new & Hp & Hip & Hpt & _).
        repeat split; try assumption.
        + eauto.
        + rewrite Hp. apply Exists_app. right. constructor. auto. }
    destruct (IH w1) as (w' & Hrun & Ha & Hl & Hg & [ex Hp] & Hall).
    exists w'. split; [exact Hrun|].
    split; [congruence|]. split; [congruence|]. split; [congruence|].
    split.
    + exists (ex1 ++ ex). rewrite Hp, Hp1, app_assoc. reflexivity.
    + intros r' z' Hr' Hz'. apply elem_of_cons in Hr' as [->|Hr'].
      * assert (z' = z) as -> by congruence.
        rewrite Hp. apply Exists_app. left. exact Hhere.
      * apply Hall; assumption.
Qed.

Lemma load_proxies_raise (rows : list csv_row) (w : world) :
  Exists (λ r, ¬ well_formed r) rows →
  ∃ e, (e = ValueError ∨ e = TypeError ∨ e = OverflowError) ∧
    load_proxies rows w = (Ok tt, log (FailedToLoadProxies e) w).
Proof.
  intros Hbad.
  destruct (load_rows_raise rows w Hbad) as (e & w' & Hrun & He & Hlog).
  exists e. split; [exact He|].
  unfold load_proxies. rewrite Hrun. unfold rollback, log. rewrite Hlog.
  reflexivity.
Qed.


(** C6, as the code has it: [load_proxies] is all or nothing.  A batch with
    a record whose port does not convert to an integer that SQLite holds
    ([int] raises [ValueError] or [TypeError], the binding
    [OverflowError]) is rolled back as a whole (the stored data is what it
    was before the call) and the failure is logged; a batch of well-formed
    records is imported to the end, every record then having a stored row
    with its host and port, and success is logged. *)
Theorem load_proxies_all_or_nothing (rows : list csv_row) (w : world) :
  (Exists (λ r, ¬ well_formed r) rows →
   ∃ e, (e = ValueError ∨ e = TypeError ∨ e = OverflowError) ∧
     load_proxies rows w = (Ok tt, log (FailedToLoadProxies e) w))
  ∧ (Forall well_formed rows →
     ∃ w', load_proxies rows w = (Ok tt, w') ∧
       logger w' = logger w ++ [LoadedProxies] ∧
       accounts w' = accounts w ∧ activity_log w' = activity_log w ∧
       (∃ extra, proxies w' = proxies w ++ extra) ∧
       ∀ r z, r ∈ rows → port_param r = Ok z →
         Exists (λ row, p_ip row = row_get r "ip" ∧ p_port row = z)
           (proxies w')).
Proof.
  split; [apply load_proxies_raise|].
  intros Hwf.
  destruct (load_rows_ok rows w Hwf)
    as (w' & Hrun & Ha & Hl & Hg & Hp & Hall).
  exists (log LoadedProxies w'). unfold load_proxies. rewrite Hrun.
  split; [reflexivity|]. simpl. rewrite Hg. auto.
Qed.

(** *** Idempotence on host and port *)

Lemma well_formed_dec (r : csv_row) : well_formed r ∨ ¬ well_formed r.
Proof.
  unfold well_formed. destruct (port_param r) as [z|e]; [left; eauto|].
  right. intros [z Hz]. discriminate.
Qed.

Lemma well_formed_all_or_some (rows : list csv_row) :
  Forall well_formed rows ∨ Exists (λ r, ¬ well_formed r) rows.
Proof.
  induction rows as [|r rows [IH|IH]]; [left; constructor| |].
  - destruct (well_formed_dec r); [left|right]; constructor; assumption.
  - right. constructor 2. exact IH.
Qed.







End WithCipher.
End PoolFacts.

(** ** The timing policy *)

Module TimingFacts.
Import Py Db Run PyFloat EngagementScheduler.

Lemma ltb_leb (a b : float) : ltb a b = true → leb a b = true.
Proof.
  unfold ltb, leb, SFltb, SFleb.
  destruct (SFcompare a b) as [[]|]; congruence.
Qed.

Lemma compare_refl (a : float) : a ≠ S754_nan → SFcompare a a = Some Eq.
Proof.
  destruct a as [s|s| |s m e]; simpl; intros Hnan.
  - reflexivity.
  - destruct s; reflexivity.
  - congruence.
  - rewrite Z.compare_refl, Pos.compare_cont_refl. destruct s; reflexivity.
Qed.

Lemma leb_not_nan (a b : float) : leb a b = true → a ≠ S754_nan.
Proof. intros Hle ->. discriminate Hle. Qed.

Lemma leb_refl (a : float) : a ≠ S754_nan → leb a a = true.
Proof. intros Hnan. unfold leb, SFleb. rewrite compare_refl; auto. Qed.

(** [max(a, b)] is at least [a] unless [a] is NaN. *)
Lemma max_at_least_left (a b : float) : a ≠ S754_nan → leb a (max a b) = true.
Proof.
  intros Hnan. unfold max. destruct (ltb a b) eqn:Hlt.
  - apply ltb_leb. exact Hlt.
  - apply leb_refl. exact Hnan.
Qed.

Lemma jittered_hours_at_least_min (freq : frequency) (d_min d_max d_var : Z)
    (u : float) (sign : bool) :
  leb (configured (min_hours freq) d_min) (configured (max_hours freq) d_max)
    = true →
  leb (configured (min_hours freq) d_min)
    (jittered_hours freq d_min d_max d_var u sign) = true.
Proof.
  intros Hle. unfold jittered_hours.
  apply max_at_least_left. eapply leb_not_nan. exact Hle.
Qed.

Section WithCipher.
Context `{Fernet}.

Lemma post_with_proxy_hours (cfg : config) (o : oracle) (account_id : Z)
    (username : string) (w : world) (h : float) :
  fst (post_with_proxy cfg o account_id username w) = Ok (Hours h) →
  h = next_post_hours cfg o.
Proof.
  unfold post_with_proxy, bind, lift, modify, ret.
  destruct (login_ok o); simpl; [|discriminate].
  destruct (choice _ _); simpl; [|discriminate].
  destruct (truthy _); simpl; intros [= <-]; reflexivity.
Qed.

Lemma comment_with_proxy_hours (cfg : config) (o : oracle) (account_id : Z)
    (username : string) (w : world) (h : float) :
  fst (comment_with_proxy cfg o account_id username w) = Ok (Hours h) →
  h = next_comment_hours cfg o.
Proof.
  unfold comment_with_proxy, bind, lift, modify, ret.
  destruct (login_ok o); simpl; [|discriminate].
  destruct (choice (pick_subreddit o) _); simpl; [|discriminate].
  destruct (trending_posts o) as [|post posts]; simpl.
  - intros [= <-]; reflexivity.
  - destruct (truthy _); simpl; intros [= <-]; reflexivity.
Qed.

(** A job returns hours only through its last line. *)
Lemma run_job_hours (cfg : config) (o : oracle) (j : job) (w : world)
    (h : float) :
  fst (run_job cfg o j w) = Ok (Hours h) →
  h = match j with
      | PostJob _ _ => next_post_hours cfg o
      | CommentJob _ _ => next_comment_hours cfg o
      end.
Proof.
  destruct j as [account_id username|account_id username]; simpl;
    unfold _create_post_job, _create_comment_job, bind at 1;
    (destruct (AccountManager.get_account_details username w)
      as [[[d|]|e] w1]; simpl; [|discriminate|discriminate]);
    (destruct (_is_within_activity_hours cfg (hour o)); simpl;
      [|discriminate]);
    unfold bind at 1;
    (destruct (ProxyManager.get_next_proxy (now_proxy o) w1)
      as [[[p|]|e] w2]; simpl; [|discriminate|discriminate]).
  - apply post_with_proxy_hours.
  - apply comment_with_proxy_hours.
Qed.

(** C3: with [min_hours <= max_hours] configured (or defaulted), the hours
    computed at the end of a post job and of a comment job are at least
    [min_hours], whatever the random source draws; so is every number of
    hours that a job returns. *)
Theorem next_hours_at_least_min (cfg : config) (o : oracle) (j : job)
    (w : world) :
  let freq := match j with
              | PostJob _ _ => post_frequency cfg
              | CommentJob _ _ => comment_frequency cfg
              end in
  let d_min := match j with PostJob _ _ => 12 | CommentJob _ _ => 4 end in
  let d_max := match j with PostJob _ _ => 48 | CommentJob _ _ => 24 end in
  leb (configured (min_hours freq) d_min) (configured (max_hours freq) d_max)
    = true →
  leb (configured (min_hours freq) d_min)
    (match j with
     | PostJob _ _ => next_post_hours cfg o
     | CommentJob _ _ => next_comment_hours cfg o
     end) = true
  ∧ ∀ h, fst (run_job cfg o j w) = Ok (Hours h) →
         leb (configured (min_hours freq) d_min) h = true.
Proof.
  intros freq d_min d_max Hle.
  assert (leb (configured (min_hours freq) d_min)
            (match j with
             | PostJob _ _ => next_post_hours cfg o
             | CommentJob _ _ => next_comment_hours cfg o
             end) = true) as Hnext.
  { subst freq d_min d_max. destruct j;
      apply jittered_hours_at_least_min; exact Hle. }
  split; [exact Hnext|].
  intros h Hrun. rewrite (run_job_hours cfg o j w h Hrun). exact Hnext.
Qed.

End WithCipher.
End TimingFacts.

(** ** The credential store *)

Module AccountFacts.
Import Py Db Run AccountManager.

Lemma decode_encode (s : string) : decode (encode s) = s.
Proof. apply String.string_of_list_byte_of_string. Qed.

Lemma encode_decode (b : list byte) : encode (decode b) = b.
Proof. apply String.list_byte_of_string_of_list_byte. Qed.

Section WithCipher.
Context `{FernetCorrect}.

Lemma decrypt_encrypt (password : string) :
  _decrypt (Some (_encrypt password)) = Ok password.
Proof.
  unfold _decrypt, _encrypt.
  rewrite encode_decode, fernet_decrypt_encrypt, decode_encode. reflexivity.
Qed.

Lemma encrypt_inj (p q : string) : _encrypt p = _encrypt q → p = q.
Proof.
  intros Heq. pose proof (decrypt_encrypt p) as Hp.
  rewrite Heq, decrypt_encrypt in Hp. congruence.
Qed.

(** The dict of the comprehension, when every stored secret was made by
    [_encrypt] and the ids are distinct. *)
Lemma decrypt_all_saved (rows : list account_row) :
  NoDup (a_id <$> rows) →
  Forall (λ a, ∃ p, a_password_encrypted a = Some (_encrypt p)) rows →
  ∀ m0, ∃ m, decrypt_all rows m0 = Ok m ∧
    (∀ a p, a ∈ rows → a_password_encrypted a = Some (_encrypt p) →
            m !! a_id a = Some p) ∧
    (∀ id, id ∉ a_id <$> rows → m !! id = m0 !! id).
Proof.
  induction rows as [|a rows IH]; intros Hnodup Hall m0.
  - exists m0. split; [reflexivity|]. split; [|auto].
    intros a p Ha. inversion Ha.
  - rewrite fmap_cons in Hnodup. apply NoDup_cons in Hnodup as [Hfresh Hnodup].
    apply Forall_cons in Hall as [[p Hp] Hall].
    destruct (IH Hnodup Hall (<[a_id a := p]> m0)) as (m & Hrun & Hin & Hout).
    exists m. simpl. rewrite Hp, decrypt_encrypt. split; [exact Hrun|].
    split.
    + intros a' p' Ha' Hp'. apply elem_of_cons in Ha' as [->|Ha'].
      * rewrite (Hout _ Hfresh), lookup_insert_eq.
        f_equal. apply encrypt_inj. congruence.
      * apply Hin; assumption.
    + intros id Hid.
      change (id ∉ a_id a :: (a_id <$> rows)) in Hid.
      apply not_elem_of_cons in Hid as [Hne Hid].
      rewrite (Hout id Hid). apply lookup_insert_ne. congruence.
Qed.

(** C9: under the cipher's contract, decrypting what [_encrypt] stored gives
    back the password; hence an account saved with a password is looked up
    with that same password, and the export of a store whose secrets were
    saved this way carries, for every account, the password it was saved
    with, so that saving an exported password again stores an encryption of
    the original one. *)
Theorem password_round_trip :
  (∀ password, _decrypt (Some (_encrypt password)) = Ok password)
  ∧ (∀ w w1 username password email proxy now user_agent,
       _save_account username password email proxy now user_agent w
         = (Ok tt, w1) →
       ∃ d, get_account_details username w1 = (Ok (Some d), w1) ∧
            d_password d = password ∧
            a_username (details_row d) = username)
  ∧ (∀ w,
       NoDup (a_id <$> accounts w) →
       Forall (λ a, ∃ p, a_password_encrypted a = Some (_encrypt p))
         (accounts w) →
       ∃ out, export_accounts w = (Ok out, w) ∧
         Forall2
           (λ a x, x_username x = a_username a ∧
                   ∀ p, a_password_encrypted a = Some (_encrypt p) →
                        x_password x = Some p ∧
                        ∀ u e px now ua w2 w3,
                          _save_account u p e px now ua w2 = (Ok tt, w3) →
                          ∃ d, get_account_details u w3 = (Ok (Some d), w3) ∧
                               d_password d = p)
           (accounts w) out).
Proof.
  assert (∀ w w1 username password email proxy now user_agent,
       _save_account username password email proxy now user_agent w
         = (Ok tt, w1) →
       ∃ d, get_account_details username w1 = (Ok (Some d), w1) ∧
            d_password d = password ∧
            a_username (details_row d) = username) as Hsave.
  { intros w w1 username password email proxy now user_agent.
    unfold _save_account, bind, get, raise, modify.
    destruct (decide (Exists _ (accounts w))) as [|Hfresh]; [discriminate|].
    intros [= <-].
    unfold get_account_details, bind, get, lift, ret. simpl.
    rewrite filter_app.
    assert (filter (λ a, a_username a = username) (accounts w) = []) as ->.
    { destruct (filter _ (accounts w)) as [|a l] eqn:Hf; [reflexivity|].
      assert (a ∈ filter (λ a, a_username a = username) (accounts w)) as Ha
          by (rewrite Hf; left).
      apply list_elem_of_filter in Ha as [Hu Ha].
      destruct Hfresh. apply Exists_exists. eauto. }
    rewrite filter_cons, filter_nil. simpl.
    rewrite decide_True by reflexivity. simpl.
    pose proof (decrypt_encrypt password) as Hdec.
    unfold _decrypt in Hdec. rewrite Hdec. eauto. }
  split; [exact decrypt_encrypt|]. split; [exact Hsave|].
  intros w Hnodup Hall.
  destruct (decrypt_all_saved (accounts w) Hnodup Hall ∅)
    as (m & Hrun & Hin & _).
  exists (to_exported m <$> accounts w).
  unfold export_accounts, bind, get, lift, ret. rewrite Hrun.
  split; [reflexivity|].
  apply Forall2_fmap_r, Forall2_same_length_lookup. split; [reflexivity|].
  intros i a a' Ha Ha'. assert (a' = a) as -> by congruence.
  split; [reflexivity|]. intros p Hp. split.
  - simpl. apply Hin; [|exact Hp].
    eapply list_elem_of_lookup_2. exact Ha.
  - intros u e px now ua w2 w3 Hrun3.
    destruct (Hsave _ _ _ _ _ _ _ _ Hrun3) as (d & Hd & Hpw & _). eauto.
Qed.

End WithCipher.
End AccountFacts.

(** ** The jobs *)

Module JobFacts.
Import Py Db Run ProxyManager AccountManager EngagementScheduler PoolFacts.
Import Scheduling RunLoop.

Lemma choice_elem {A} (draw : nat) (l : list A) (x : A) :
  choice draw l = Ok x → x ∈ l.
Proof.
  destruct l as [|y l]; [discriminate|]. unfold choice.
  remember (y :: l) as l' eqn:Hl'. intros Heq. injection Heq as <-.
  apply list_elem_of_In, nth_In, Nat.mod_upper_bound.
  rewrite Hl'. discriminate.
Qed.

Lemma truthy_id (v : option string) :
  truthy v = true → ∃ id, v = Some id ∧ id ≠ "".
Proof.
  destruct v as [[|c s]|]; try discriminate.
  intros _. eexists. split; [reflexivity|discriminate].
Qed.

Lemma schedule_activities_returns (cfg : config) (rotation_frequency : Z)
    (random_at : nat → PyFloat.float) (accounts : option (list string))
    (table : list entry) (w : world) :
  ∃ table', schedule_activities cfg rotation_frequency random_at accounts
              table w = (Ok table', w).
Proof.
  unfold schedule_activities, _schedule_engagement, bind, get, ret. simpl.
  destruct (filter _ (Db.accounts w)); eauto.
Qed.

Lemma poll_raise (run_pending : list entry → M (list entry)) (ticks : nat) :
  ∀ table w t1 w1 e w2,
  poll run_pending ticks table w = (Ok t1, w1) →
  run_pending t1 w1 = (Raise e, w2) →
  ∀ more, poll run_pending (ticks + S more) table w = (Raise e, w2).
Proof.
  induction ticks as [|ticks IH]; intros table w t1 w1 e w2 Hrun Hraise more.
  - injection Hrun as <- <-. simpl. unfold bind. rewrite Hraise. reflexivity.
  - simpl in *. unfold bind in *.
    destruct (run_pending table w) as [[t0|e0] w0]; [|discriminate].
    eapply IH; eassumption.
Qed.

Section WithCipher.
Context `{Fernet}.

Lemma get_account_details_world (username : string) (w : world) :
  snd (get_account_details username w) = w.
Proof.
  unfold get_account_details, bind, get, lift, ret.
  destruct (filter _ (accounts w)) as [|a l]; [reflexivity|].
  destruct (_decrypt _); reflexivity.
Qed.


(** A job, case by case. *)
Lemma run_job_unfold (cfg : config) (o : oracle) (j : job) (w : world) :
  run_job cfg o j w =
  match fst (get_account_details (job_username j) w) with
  | Raise e => (Raise e, w)
  | Ok None => (Ok CancelJob, log (AccountDetailsNotFound (job_username j)) w)
  | Ok (Some _) =>
      if _is_within_activity_hours cfg (hour o) then
        match get_next_proxy (now_proxy o) w with
        | (Raise e, w1) => (Raise e, w1)
        | (Ok None, w1) =>
            (Ok ReturnedNone, log (NoProxyAvailableFor (job_gerund j)) w1)
        | (Ok (Some _), w1) => job_with_proxy cfg o j w1
        end
      else
        (Ok ReturnedNone,
         log (OutsideActivityHours (job_kind j) (job_username j)) w)
  end.
Proof.
  destruct j as [account_id username|account_id username]; simpl;
    unfold _create_post_job, _create_comment_job, bind at 1;
    pose proof (get_account_details_world username w) as Hw;
    destruct (get_account_details username w) as [[[d|]|e] w0];
    simpl in *; subst w0; try reflexivity;
    destruct (_is_within_activity_hours cfg (hour o)); simpl;
    try reflexivity; unfold bind at 1;
    destruct (get_next_proxy (now_proxy o) w) as [[[p|]|e] w1];
    reflexivity.
Qed.

Lemma get_next_proxy_keeps (now : string) (w : world) :
  accounts (snd (get_next_proxy now w)) = accounts w ∧
  activity_log (snd (get_next_proxy now w)) = activity_log w.
Proof.
  destruct (get_next_proxy_cases now w)
    as [(_ & _ & Hr)|[(_ & Hr)|(ps & q & _ & _ & Hr)]]; rewrite Hr;
    split; reflexivity.
Qed.

(** After the proxy: the accounts and the records stay as they are, or the
    submission returned an id and one record is appended together with the
    count. *)
Lemma job_with_proxy_audit (cfg : config) (o : oracle) (j : job) (w : world) :
  let w' := snd (job_with_proxy cfg o j w) in
  (activity_log w' = activity_log w ∧ accounts w' = accounts w)
  ∨ (∃ subreddit id target reply,
       login_ok o = true ∧ submission o j = Some id ∧ id ≠ "" ∧
       subreddit ∈ target_subreddits cfg ∧
       match j with
       | PostJob _ _ => target = Some id ∧ reply = None
       | CommentJob _ _ =>
           (∃ post, post ∈ trending_posts o ∧ target = Some post) ∧
           reply = Some id
       end ∧
       activity_log w' = activity_log w ++
         [{| l_account_id := job_account_id j;
             l_activity_type := job_kind j;
             l_activity_date := now_log o; l_subreddit := subreddit;
             l_post_id := target; l_comment_id := reply;
             l_status := "success"; l_details := None |}] ∧
       accounts w' =
         (λ a, if decide (a_id a = job_account_id j)
               then match j with
                    | PostJob _ _ =>
                        with_activity (Some (now_account o))
                          (a_last_comment_date a) (a_total_posts a + 1)
                          (a_total_comments a) a
                    | CommentJob _ _ =>
                        with_activity (a_last_post_date a)
                          (Some (now_account o)) (a_total_posts a)
                          (a_total_comments a + 1) a
                    end
               else a) <$> accounts w ∧
       ∃ h, fst (job_with_proxy cfg o j w) = Ok (Hours h)).
Proof.
  destruct j as [account_id username|account_id username]; simpl;
    unfold post_with_proxy, comment_with_proxy, bind, lift, modify, ret,
      _log_activity, update_account.
  - destruct (login_ok o); simpl; [|left; split; reflexivity].
    destruct (choice _ _) as [subreddit|e] eqn:Hchoice; simpl;
      [|left; split; reflexivity].
    destruct (truthy (submitted_post o)) eqn:Hid; simpl;
      [|left; split; reflexivity].
    destruct (truthy_id _ Hid) as (id & Hsome & Hne).
    right. exists subreddit, id, (Some id), None.
    split; [reflexivity|]. split; [exact Hsome|]. split; [exact Hne|].
    split; [eapply choice_elem; exact Hchoice|].
    split; [split; reflexivity|]. rewrite Hsome.
    split; [reflexivity|]. split; [reflexivity|]. eauto.
  - destruct (login_ok o); simpl; [|left; split; reflexivity].
    destruct (choice (pick_subreddit o) _) as [subreddit|e] eqn:Hchoice; simpl;
      [|left; split; reflexivity].
    destruct (trending_posts o) as [|post posts] eqn:Hposts; simpl;
      [left; split; reflexivity|].
    destruct (truthy (submitted_comment o)) eqn:Hid; simpl;
      [|left; split; reflexivity].
    destruct (truthy_id _ Hid) as (id & Hsome & Hne).
    right. eexists subreddit, id, _, (Some id).
    split; [reflexivity|]. split; [exact Hsome|]. split; [exact Hne|].
    split; [eapply choice_elem; exact Hchoice|].
    split.
    { split; [|reflexivity]. eexists. split; [|reflexivity].
      apply (choice_elem (pick_post o)). reflexivity. }
    rewrite Hsome.
    split; [reflexivity|]. split; [reflexivity|]. eauto.
Qed.

(** After the proxy: a failed login is logged and ends the job; the only
    exception is that of the choice among no targets, and it leaves the
    world as it was. *)
Lemma job_with_proxy_ends (cfg : config) (o : oracle) (j : job) (w : world) :
  (login_ok o = false →
   job_with_proxy cfg o j w
     = (Ok ReturnedNone, log (FailedToLogin (job_username j)) w))
  ∧ (login_ok o = true → target_subreddits cfg = [] →
     job_with_proxy cfg o j w = (Raise IndexError, w))
  ∧ (∀ e, fst (job_with_proxy cfg o j w) = Raise e →
          snd (job_with_proxy cfg o j w) = w).
Proof.
  destruct j as [account_id username|account_id username]; simpl;
    unfold post_with_proxy, comment_with_proxy, bind, lift, modify, ret,
      _log_activity, update_account.
  - destruct (login_ok o); simpl.
    + split; [discriminate|]. split; [intros _ ->; reflexivity|].
      destruct (choice _ _) as [subreddit|e0]; simpl; [|reflexivity].
      destruct (truthy _); simpl; discriminate.
    + split; [reflexivity|]. split; discriminate.
  - destruct (login_ok o); simpl.
    + split; [discriminate|]. split; [intros _ ->; reflexivity|].
      destruct (choice (pick_subreddit o) _) as [subreddit|e0]; simpl;
        [|reflexivity].
      destruct (trending_posts o) as [|post posts]; simpl; [discriminate|].
      destruct (truthy _); simpl; discriminate.
    + split; [reflexivity|]. split; discriminate.
Qed.

(** *** Computations that do not read the status *)














(** What a job does to the accounts and the records: nothing, or one record
    for a submission that returned an id, together with the count. *)
Lemma run_job_audit (cfg : config) (o : oracle) (j : job) (w : world) :
  let w' := snd (run_job cfg o j w) in
  (activity_log w' = activity_log w ∧ accounts w' = accounts w)
  ∨ (∃ subreddit id target reply,
       login_ok o = true ∧ submission o j = Some id ∧ id ≠ "" ∧
       subreddit ∈ target_subreddits cfg ∧
       match j with
       | PostJob _ _ => target = Some id ∧ reply = None
       | CommentJob _ _ =>
           (∃ post, post ∈ trending_posts o ∧ target = Some post) ∧
           reply = Some id
       end ∧
       activity_log w' = activity_log w ++
         [{| l_account_id := job_account_id j;
             l_activity_type := job_kind j;
             l_activity_date := now_log o; l_subreddit := subreddit;
             l_post_id := target; l_comment_id := reply;
             l_status := "success"; l_details := None |}] ∧
       accounts w' =
         (λ a, if decide (a_id a = job_account_id j)
               then match j with
                    | PostJob _ _ =>
                        with_activity (Some (now_account o))
                          (a_last_comment_date a) (a_total_posts a + 1)
                          (a_total_comments a) a
                    | CommentJob _ _ =>
                        with_activity (a_last_post_date a)
                          (Some (now_account o)) (a_total_posts a)
                          (a_total_comments a + 1) a
                    end
               else a) <$> accounts w ∧
       ∃ h, fst (run_job cfg o j w) = Ok (Hours h)).
Proof.
  cbv zeta. rewrite run_job_unfold.
  destruct (fst (get_account_details (job_username j) w)) as [[d|]|e];
    simpl; [|left; split; reflexivity|left; split; reflexivity].
  destruct (_is_within_activity_hours cfg (hour o)); simpl;
    [|left; split; reflexivity].
  destruct (get_next_proxy_keeps (now_proxy o) w) as [Hacc Hlog].
  destruct (get_next_proxy (now_proxy o) w) as [[[p|]|e] w1]; simpl in *.
  - rewrite <- Hacc, <- Hlog. apply job_with_proxy_audit.
  - left. split; assumption.
  - left. split; assumption.
Qed.

(** A job that raises has logged nothing. *)
Lemma run_job_raise_silent (cfg : config) (o : oracle) (j : job) (w : world)
    (e : exn) :
  fst (run_job cfg o j w) = Raise e →
  logger (snd (run_job cfg o j w)) = logger w.
Proof.
  rewrite run_job_unfold.
  destruct (fst (get_account_details (job_username j) w)) as [[d|]|e0];
    simpl; [|discriminate|reflexivity].
  destruct (_is_within_activity_hours cfg (hour o)); simpl; [|discriminate].
  destruct (get_next_proxy_cases (now_proxy o) w)
    as [(_ & _ & Hr)|[(_ & Hr)|(ps & q & _ & _ & Hr)]]; rewrite Hr; simpl.
  - reflexivity.
  - discriminate.
  - intros Hraise.
    destruct (job_with_proxy_ends cfg o j
                (set_proxies
                   (update_where_id (p_id (row q))
                      (with_last_used (Some (now_proxy o))) (proxies w)) w))
      as (_ & _ & Hsame).
    rewrite (Hsame e Hraise). reflexivity.
Qed.

(** C8, as the code has it: a job appends an Activity Record only when the
    submission returned an id, and then one record with status ['success'],
    so a failed attempt (a failed login, a submission without an id) leaves
    no record and no count; a login that the session client reports as
    failed makes the job log it and return [None]; the job has no handler,
    so what account lookup, proxy acquisition or the choice of a target
    raises leaves the job as it is, with nothing logged and nothing
    recorded; the loop of [run_engagement] has no handler either, so an
    exception that leaves a poll of the scheduling package ends the loop,
    whatever that package does when it polls. *)
Theorem job_has_no_handler (cfg : config) (o : oracle) (j : job)
    (run_pending : list entry → M (list entry)) (w : world) :
  let w' := snd (run_job cfg o j w) in
  (activity_log w' = activity_log w
   ∨ ∃ subreddit id target reply,
       login_ok o = true ∧ submission o j = Some id ∧ id ≠ "" ∧
       subreddit ∈ target_subreddits cfg ∧
       match j with
       | PostJob _ _ => target = Some id ∧ reply = None
       | CommentJob _ _ =>
           (∃ post, post ∈ trending_posts o ∧ target = Some post) ∧
           reply = Some id
       end ∧
       activity_log w' = activity_log w ++
         [{| l_account_id := job_account_id j;
             l_activity_type := job_kind j;
             l_activity_date := now_log o; l_subreddit := subreddit;
             l_post_id := target; l_comment_id := reply;
             l_status := "success"; l_details := None |}])
  ∧ (login_ok o = false ∨ truthy (submission o j) = false →
     activity_log w' = activity_log w ∧ accounts w' = accounts w)
  ∧ (∀ d p w1,
       fst (get_account_details (job_username j) w) = Ok (Some d) →
       _is_within_activity_hours cfg (hour o) = true →
       get_next_proxy (now_proxy o) w = (Ok (Some p), w1) →
       login_ok o = false →
       run_job cfg o j w
         = (Ok ReturnedNone, log (FailedToLogin (job_username j)) w1))
  ∧ (∀ e, fst (get_account_details (job_username j) w) = Raise e →
          run_job cfg o j w = (Raise e, w))
  ∧ (∀ d e w1,
       fst (get_account_details (job_username j) w) = Ok (Some d) →
       _is_within_activity_hours cfg (hour o) = true →
       get_next_proxy (now_proxy o) w = (Raise e, w1) →
       run_job cfg o j w = (Raise e, w1))
  ∧ (∀ d p w1,
       fst (get_account_details (job_username j) w) = Ok (Some d) →
       _is_within_activity_hours cfg (hour o) = true →
       get_next_proxy (now_proxy o) w = (Ok (Some p), w1) →
       login_ok o = true → target_subreddits cfg = [] →
       run_job cfg o j w = (Raise IndexError, w1))
  ∧ (∀ e, fst (run_job cfg o j w) = Raise e →
          logger w' = logger w ∧ activity_log w' = activity_log w ∧
          accounts w' = accounts w)
  ∧ (∀ rotation_frequency random_at accounts table ticks t1 w1 e w2,
       run_engagement cfg rotation_frequency random_at run_pending accounts
         table ticks w = (Ok t1, w1) →
       run_pending t1 w1 = (Raise e, w2) →
       ∀ more,
         run_engagement cfg rotation_frequency random_at run_pending accounts
           table (ticks + S more) w = (Raise e, w2)).
Proof.
  cbv zeta.
  split; [|split; [|split; [|split; [|split; [|split; [|split]]]]]].
  - destruct (run_job_audit cfg o j w)
      as [[Hlog _]|(subreddit & id & target & reply & Hok & Hid & Hne & Hsub
                    & Hshape & Hlog & _)].
    + left. exact Hlog.
    + right. exists subreddit, id, target, reply. auto 10.
  - intros Hfailed.
    destruct (run_job_audit cfg o j w)
      as [Hsame|(subreddit & id & target & reply & Hok & Hid & Hne & _)].
    + exact Hsame.
    + destruct Hfailed as [Hlogin|Hnone]; [congruence|].
      rewrite Hid in Hnone. destruct id; [contradiction|discriminate].
  - intros d p w1 Hd Hin Hproxy Hlogin.
    rewrite run_job_unfold, Hd, Hin, Hproxy.
    apply job_with_proxy_ends. exact Hlogin.
  - intros e He. rewrite run_job_unfold, He. reflexivity.
  - intros d e w1 Hd Hin Hproxy.
    rewrite run_job_unfold, Hd, Hin, Hproxy. reflexivity.
  - intros d p w1 Hd Hin Hproxy Hlogin Hempty.
    rewrite run_job_unfold, Hd, Hin, Hproxy.
    apply job_with_proxy_ends; assumption.
  - intros e Hraise. split; [exact (run_job_raise_silent _ _ _ _ _ Hraise)|].
    destruct (run_job_audit cfg o j w)
      as [Hsame|(_ & _ & _ & _ & _ & _ & _ & _ & _ & _ & _ & h & Hh)].
    + exact Hsame.
    + rewrite Hh in Hraise. discriminate.
  - intros rotation_frequency random_at accounts table ticks t1 w1 e w2.
    unfold run_engagement, bind.
    destruct (schedule_activities_returns cfg rotation_frequency random_at
                accounts table w) as [table' ->].
    apply poll_raise.
Qed.

End WithCipher.
End JobFacts.

(** ** The theorems on the sample data *)

Module OnSamples.
Import Py Db Run PyFloat.
Import ProxyManager AccountManager EngagementScheduler TagCipher Samples.
Import PoolFacts TimingFacts AccountFacts JobFacts.

Ltac by_evaluation :=
  match goal with
  | |- ?P => apply (@bool_decide_unpack P _); vm_compute; exact I
  end.

Lemma get_next_proxy_available_witness :
  ∃ p w', get_next_proxy "2024-05-01T10:00:05" pool_world
            = (Ok (Some p), w') ∧
          p_status (row p) = "active" ∧ p_failure_count (row p) < 5.
Proof.
  apply (get_next_proxy_available "2024-05-01T10:00:05" pool_world).
  - by_evaluation.
  - repeat constructor; intros _; eexists; reflexivity.
Defined.


Lemma five_failures_deactivate_witness :
  ∃ r', proxies (run_ops (replicate 5 (ReportFailure (p_id p1))) pool_world)
          !! 0%nat = Some r' ∧
        p_failure_count r' = 5 ∧ p_status r' = "inactive".
Proof.
  apply (five_failures_deactivate pool_world 0%nat p1); reflexivity.
Defined.

Lemma next_hours_at_least_min_witness :
  leb (of_int 12) (next_post_hours sample_config good_day) = true ∧
  ∀ h, fst (run_job sample_config good_day (PostJob 1 "alice") active_world)
         = Ok (Hours h) →
       leb (of_int 12) h = true.
Proof.
  apply (next_hours_at_least_min sample_config good_day (PostJob 1 "alice")
           active_world).
  vm_compute. reflexivity.
Defined.

(** What [int] and the binding make of some ports: digits of another
    script are read, blanks around the literal and single underscores inside
    it are accepted, and a number beyond 64 bits is refused by the
    binding. *)
Example port_param_examples :
  port_param (record "10.0.0.1" "８０") = Ok 80 ∧
  port_param (record "10.0.0.1" " 8_080 ") = Ok 8080 ∧
  port_param (record "10.0.0.1" "-1") = Ok (-1) ∧
  port_param (record "10.0.0.1" "9223372036854775807")
    = Ok 9223372036854775807 ∧
  port_param (record "10.0.0.1" "9223372036854775808") = Raise OverflowError ∧
  port_param (record "10.0.0.1" "80a") = Raise ValueError ∧
  port_param (record "10.0.0.1" "") = Raise ValueError ∧
  port_param {[ "ip" := Some "10.0.0.1"; "port" := None ]} = Raise TypeError ∧
  port_param {[ "ip" := Some "10.0.0.1" ]} = Ok 0.
Proof. repeat split; vm_compute; reflexivity. Qed.

(** C6 fails on the code: the first record of the batch is well-formed, the
    second has the port ["80a"], and after the call nothing is stored and
    the failure, not a success, is logged. *)
Lemma bad_record_aborts_batch :
  well_formed (record "10.0.0.1" "8080") ∧
  record "10.0.0.1" "8080" ∈ bad_batch ∧
  load_proxies bad_batch empty_world
    = (Ok tt, log (FailedToLoadProxies ValueError) empty_world) ∧
  proxies (snd (load_proxies bad_batch empty_world)) = [].
Proof.
  split; [exists 8080; vm_compute; reflexivity|].
  split; [left|]. split; vm_compute; reflexivity.
Qed.

Lemma load_proxies_all_or_nothing_witness :
  ∃ e, (e = ValueError ∨ e = TypeError ∨ e = OverflowError) ∧
       load_proxies bad_batch empty_world
         = (Ok tt, log (FailedToLoadProxies e) empty_world).
Proof.
  apply (load_proxies_all_or_nothing bad_batch empty_world).
  apply Exists_cons_tl, Exists_cons_hd. intros [z Hz].
  vm_compute in Hz. discriminate Hz.
Defined.



Lemma password_round_trip_witness :
  _decrypt (Some (_encrypt "hunter2")) = Ok "hunter2".
Proof. apply (password_round_trip (H0 := TagCipher.correct)). Defined.



(** C8 fails on the code.  When the stored secret of a proxy does not
    decrypt, the acquisition raises inside the job: the exception leaves the
    job, nothing is logged and no Activity Record is written.  And when the
    login fails, the job returns without writing an Activity Record for the
    failed attempt. *)
Lemma job_exception_escapes :
  run_job sample_config login_fails (CommentJob 1 "alice") stale_secret_world
    = (Raise InvalidToken, stale_secret_world) ∧
  activity_log stale_secret_world = [] ∧ logger stale_secret_world = [] ∧
  login_ok login_fails = false ∧
  ∃ w', run_job sample_config login_fails (PostJob 1 "alice") active_world
          = (Ok ReturnedNone, w') ∧
        activity_log w' = [] ∧ logger w' = [FailedToLogin "alice"].
Proof.
  split; [vm_compute; reflexivity|].
  split; [reflexivity|]. split; [reflexivity|]. split; [reflexivity|].
  eexists. split; [vm_compute; reflexivity|]. split; reflexivity.
Qed.

Lemma job_has_no_handler_witness :
  run_job sample_config login_fails (CommentJob 1 "alice") stale_secret_world
    = (Raise InvalidToken, stale_secret_world).
Proof.
  destruct (job_has_no_handler sample_config login_fails
              (CommentJob 1 "alice") (λ table, Run.ret table)
              stale_secret_world) as (_ & _ & _ & _ & Hproxy & _).
  eapply Hproxy; vm_compute; reflexivity.
Defined.

End OnSamples.

(** ** The pool over several operations *)

Module HealthFacts.
Import Py Db Run ProxyManager ProxyHealth PyFacts PoolFacts.

Lemma update_where_id_ids (id : Z) (f : proxy_row → proxy_row)
    (t : list proxy_row) :
  (∀ r, p_id (f r) = p_id r) →
  p_id <$> update_where_id id f t = p_id <$> t.
Proof.
  intros Hf. unfold update_where_id. rewrite <- list_fmap_compose.
  apply list_fmap_ext. intros i r _. simpl.
  destruct (decide (p_id r = id)); [apply Hf|reflexivity].
Qed.

Lemma update_where_id_same (id : Z) (f : proxy_row → proxy_row)
    (t : list proxy_row) :
  (∀ r, p_id r = id → f r = r) → update_where_id id f t = t.
Proof.
  intros Hf. unfold update_where_id.
  etransitivity; [|apply list_fmap_id].
  apply list_fmap_ext. intros i r _. simpl.
  destruct (decide (p_id r = id)); [apply Hf; assumption|reflexivity].
Qed.

Lemma update_where_id_absent (id : Z) (f : proxy_row → proxy_row)
    (t : list proxy_row) :
  id ∉ p_id <$> t → update_where_id id f t = t.
Proof.
  intros Habsent. unfold update_where_id.
  etransitivity; [|apply list_fmap_id].
  apply list_fmap_ext. intros i r Hr. simpl.
  destruct (decide (p_id r = id)) as [Heq|]; [|reflexivity].
  destruct Habsent. rewrite <- Heq. apply list_elem_of_fmap.
  exists r. split; [reflexivity|]. eapply list_elem_of_lookup_2. exact Hr.
Qed.

(** With distinct ids, two stored rows with the same id are one row. *)
Lemma same_id_same_row (t : list proxy_row) (x y : proxy_row) :
  NoDup (p_id <$> t) → x ∈ t → y ∈ t → p_id x = p_id y → x = y.
Proof.
  induction t as [|r t IH]; intros Hnodup Hx Hy Hid; [inversion Hx|].
  rewrite fmap_cons in Hnodup. apply NoDup_cons in Hnodup as [Hfresh Hnodup].
  apply elem_of_cons in Hx as [->|Hx]; apply elem_of_cons in Hy as [->|Hy].
  - reflexivity.
  - destruct Hfresh. rewrite Hid. apply list_elem_of_fmap. eauto.
  - destruct Hfresh. rewrite <- Hid. apply list_elem_of_fmap. eauto.
  - auto.
Qed.

Lemma filter_ids_nodup (P : proxy_row → Prop) `{∀ r, Decision (P r)}
    (t : list proxy_row) :
  NoDup (p_id <$> t) → NoDup (p_id <$> filter P t).
Proof.
  induction t as [|r t IH]; intros Hnodup; [constructor|].
  rewrite fmap_cons in Hnodup. apply NoDup_cons in Hnodup as [Hfresh Hnodup].
  rewrite filter_cons. destruct (decide (P r)); [|auto].
  rewrite fmap_cons. apply NoDup_cons. split; [|auto].
  intros Hin. apply Hfresh. apply list_elem_of_fmap in Hin as (x & -> & Hx).
  apply list_elem_of_filter in Hx as [_ Hx]. apply list_elem_of_fmap. eauto.
Qed.

Section WithCipher.
Context `{Fernet}.

Lemma to_proxies_each (rows : list proxy_row) (ps : list proxy) :
  to_proxies rows = Ok ps → Forall2 (λ r p, to_proxy r = Ok p) rows ps.
Proof.
  revert ps. induction rows as [|r rows IH]; simpl; intros ps.
  - intros [= <-]. constructor.
  - destruct (to_proxy r) as [p|] eqn:Hp; [|discriminate].
    destruct (to_proxies rows) as [ps'|]; [|discriminate].
    intros [= <-]. constructor; [exact Hp|]. apply IH. reflexivity.
Qed.

Lemma swept_id (request : proxy → probe) (p : proxy) (r : proxy_row) :
  p_id (swept request p r) = p_id r.
Proof.
  unfold swept. destruct (request p) as [code|]; [|reflexivity].
  destruct (decide (code = 200)); reflexivity.
Qed.

(** The loop of the sweep is a run of UPDATEs by id. *)
Lemma test_each_updates (request : proxy → probe) (ps : list proxy)
    (w : world) :
  test_each request ps w =
  (Ok tt,
   set_proxies
     (foldl (λ t p, update_where_id (p_id (row p)) (swept request p) t)
        (proxies w) ps) w).
Proof.
  revert w. induction ps as [|p ps IH]; intros w; [destruct w; reflexivity|].
  cbn [test_each foldl]. unfold bind, test_proxy, swept at 2.
  destruct (request p) as [code|].
  - destruct (decide (code = 200)); simpl; rewrite IH.
    + reflexivity.
    + rewrite update_where_id_same by reflexivity. reflexivity.
  - simpl. rewrite IH. reflexivity.
Qed.

Lemma sweep_rows (request : proxy → probe) (ps : list proxy) :
  NoDup ((λ p, p_id (row p)) <$> ps) →
  ∀ (t : list proxy_row) (k : nat) (r : proxy_row),
  t !! k = Some r →
  ∃ r',
    foldl (λ t p, update_where_id (p_id (row p)) (swept request p) t) t ps
      !! k = Some r' ∧
    p_id r' = p_id r ∧
    (∀ p, p ∈ ps → p_id (row p) = p_id r → r' = swept request p r) ∧
    ((∀ p, p ∈ ps → p_id (row p) ≠ p_id r) → r' = r).
Proof.
  induction ps as [|p ps IH]; intros Hnodup t k r Hk.
  - exists r. simpl. split; [exact Hk|]. split; [reflexivity|].
    split; [|reflexivity]. intros p Hp. inversion Hp.
  - rewrite fmap_cons in Hnodup.
    apply NoDup_cons in Hnodup as [Hfresh Hnodup]. simpl.
    set (r1 := if decide (p_id r = p_id (row p))
               then swept request p r else r).
    assert (update_where_id (p_id (row p)) (swept request p) t !! k = Some r1)
      as Hk1 by (rewrite update_where_id_lookup, Hk; reflexivity).
    assert (p_id r1 = p_id r) as Hid1.
    { subst r1. destruct (decide _); [apply swept_id|reflexivity]. }
    destruct (IH Hnodup _ k r1 Hk1) as (r' & Hk' & Hid' & Hhit & Hmiss).
    exists r'. split; [exact Hk'|]. split; [congruence|]. split.
    + intros q Hq Hqid. apply elem_of_cons in Hq as [->|Hq].
      * subst r1. rewrite decide_True in * by congruence.
        apply Hmiss. intros q' Hq' Heq. apply Hfresh.
        apply list_elem_of_fmap. exists q'. split; [|exact Hq'].
        rewrite swept_id in Heq. congruence.
      * assert (p_id r ≠ p_id (row p)) as Hne.
        { intros Heq. apply Hfresh. apply list_elem_of_fmap.
          exists q. split; [congruence|exact Hq]. }
        subst r1. rewrite decide_False in * by exact Hne.
        apply Hhit; assumption.
    + intros Hnone.
      assert (p_id r ≠ p_id (row p)) as Hne.
      { intros Heq. apply (Hnone p); [left|congruence]. }
      subst r1. rewrite decide_False in * by exact Hne.
      apply Hmiss. intros q Hq. apply Hnone. right. exact Hq.
Qed.

(** X1: the health sweep tests the proxies that are available when it
    starts, and only those.  With distinct ids, a stored row that was not
    available is left as it is (the sweep never switches a proxy back on); an
    available row whose probe answers 200 has its failure count cleared, one
    whose probe raises has it incremented (and is switched off at 5), one
    whose probe answers another status is left as it is.  When a stored
    secret does not decrypt the sweep raises before testing anything. *)
Theorem rotate_proxies_sweep (request : proxy → probe) (w : world) :
  NoDup (p_id <$> proxies w) →
  match to_proxies (filter available (proxies w)) with
  | Raise e => rotate_proxies request w = (Raise e, w)
  | Ok _ =>
      ∃ w', rotate_proxies request w = (Ok true, w') ∧
        accounts w' = accounts w ∧ activity_log w' = activity_log w ∧
        length (proxies w') = length (proxies w) ∧
        ∀ k r, proxies w !! k = Some r →
          proxies w' !! k =
          Some (if decide (available r)
                then match to_proxy r with
                     | Ok p => swept request p r
                     | Raise _ => r
                     end
                else r)
  end.
Proof.
  intros Hnodup.
  unfold rotate_proxies, get_available_proxies, bind, get, lift. simpl.
  destruct (to_proxies (filter available (proxies w))) as [ps|e] eqn:Hps;
    [|reflexivity].
  rewrite test_each_updates. simpl.
  eexists. split; [reflexivity|]. simpl.
  split; [reflexivity|]. split; [reflexivity|].
  pose proof (to_proxies_rows _ _ Hps) as Hrows.
  pose proof (to_proxies_each _ _ Hps) as Heach.
  assert (NoDup ((λ p, p_id (row p)) <$> ps)) as Hps_nodup.
  { rewrite (list_fmap_compose row p_id), Hrows.
    apply filter_ids_nodup. exact Hnodup. }
  split.
  { clear. generalize (proxies w). induction ps as [|p ps IH]; intros t;
      [reflexivity|].
    simpl. rewrite IH. unfold update_where_id. apply length_fmap. }
  intros k r Hk.
  destruct (sweep_rows request ps Hps_nodup (proxies w) k r Hk)
    as (r' & Hk' & _ & Hhit & Hmiss).
  rewrite Hk'. f_equal.
  assert (r ∈ proxies w) as Hr by (eapply list_elem_of_lookup_2; exact Hk).
  destruct (decide (available r)) as [Hav|Hnav].
  - assert (r ∈ filter available (proxies w)) as Hin
        by (apply list_elem_of_filter; auto).
    apply list_elem_of_lookup_1 in Hin as [i Hi].
    destruct (Forall2_lookup_l _ _ _ _ _ Heach Hi) as (p & Hp & Hto).
    rewrite Hto. apply Hhit.
    + eapply list_elem_of_lookup_2. exact Hp.
    + rewrite (to_proxy_row _ _ Hto). reflexivity.
  - apply Hmiss. intros p Hp Hid.
    assert (row p ∈ filter available (proxies w)) as Hin.
    { rewrite <- Hrows. apply list_elem_of_fmap. eauto. }
    apply list_elem_of_filter in Hin as [Hav Hin].
    rewrite (same_id_same_row (proxies w) (row p) r) in Hav by assumption.
    contradiction.
Qed.

(** *** Distinct ids *)

Lemma foldr_max_ge (s : Z) (l : list Z) (x : Z) :
  x ∈ l → x ≤ foldr Z.max s l.
Proof.
  induction l as [|y l IH]; intros Hx; [inversion Hx|].
  simpl. apply elem_of_cons in Hx as [->|Hx]; [lia|].
  specialize (IH Hx). lia.
Qed.

Lemma next_id_fresh (w : world) : ProxyManager.next_id w ∉ p_id <$> proxies w.
Proof.
  intros Hin. apply (foldr_max_ge (proxies_seq w)) in Hin.
  unfold ProxyManager.next_id in Hin. lia.
Qed.

Lemma load_rows_nodup (rows : list csv_row) (w : world) :
  NoDup (p_id <$> proxies w) →
  NoDup (p_id <$> proxies (snd (load_rows rows w))).
Proof.
  revert w. induction rows as [|r rows IH]; intros w Hnodup; [exact Hnodup|].
  simpl. unfold bind at 1.
  destruct (port_param r) as [z|e] eqn:Hport.
  - rewrite (load_row_ok r z w Hport).
    destruct (decide (Exists _ (proxies w))); [apply IH; exact Hnodup|].
    apply IH. unfold inserted. simpl.
    rewrite fmap_app. apply NoDup_app. split; [exact Hnodup|].
    split; [|apply NoDup_singleton].
    intros x Hx Hnew. apply list_elem_of_singleton in Hnew. subst x.
    exact (next_id_fresh w Hx).
  - rewrite (load_row_raise r e w Hport). exact Hnodup.
Qed.

Lemma run_op_nodup (op : pool_op) (w : world) :
  NoDup (p_id <$> proxies w) →
  NoDup (p_id <$> proxies (snd (run_op op w))).
Proof.
  intros Hnodup. destruct op as [id|id|now|rows]; simpl.
  - rewrite update_where_id_ids by reflexivity. exact Hnodup.
  - rewrite update_where_id_ids by reflexivity. exact Hnodup.
  - unfold bind, ret.
    destruct (get_next_proxy_cases now w)
      as [(_ & _ & Hr)|[(_ & Hr)|(ps & q & _ & _ & Hr)]]; rewrite Hr; simpl;
      try exact Hnodup.
    rewrite update_where_id_ids by reflexivity. exact Hnodup.
  - unfold load_proxies. pose proof (load_rows_nodup rows w Hnodup) as Hload.
    destruct (load_rows rows w) as [[[]|e] w1]; simpl in *; assumption.
Qed.

Lemma run_ops_nodup (ops : list pool_op) (w : world) :
  NoDup (p_id <$> proxies w) →
  NoDup (p_id <$> proxies (run_ops ops w)).
Proof.
  revert w. induction ops as [|op ops IH]; intros w Hnodup; [exact Hnodup|].
  simpl. apply IH, run_op_nodup, Hnodup.
Qed.

(** The pool's operations keep the table in rowid order: an UPDATE keeps
    the ids, and an INSERT appends an id above all of them. *)
Lemma rowid_order_snoc (ids : list Z) (x : Z) :
  rowid_order ids → Forall (λ y, y < x) ids → rowid_order (ids ++ [x]).
Proof.
  unfold rowid_order. induction ids as [|y ids IH]; simpl.
  - intros _ _. repeat constructor.
  - intros Hsorted Hbelow.
    apply StronglySorted_inv in Hsorted as [Hrest Hless].
    apply Forall_cons in Hbelow as [Hy Hbelow].
    constructor; [apply IH; assumption|].
    apply Forall_app. split; [exact Hless|]. repeat constructor. exact Hy.
Qed.

Lemma load_rows_rowid_order (rows : list csv_row) (w : world) :
  rowid_order (p_id <$> proxies w) →
  rowid_order (p_id <$> proxies (snd (load_rows rows w))).
Proof.
  revert w. induction rows as [|r rows IH]; intros w Horder; [exact Horder|].
  simpl. unfold bind at 1.
  destruct (port_param r) as [z|e] eqn:Hport.
  - rewrite (load_row_ok r z w Hport).
    destruct (decide (Exists _ (proxies w))); [apply IH; exact Horder|].
    apply IH. unfold inserted. simpl.
    rewrite fmap_app. apply rowid_order_snoc; [exact Horder|].
    apply Forall_forall. intros y Hy.
    apply (foldr_max_ge (proxies_seq w)) in Hy.
    cbn [p_id]. unfold ProxyManager.next_id. lia.
  - rewrite (load_row_raise r e w Hport). exact Horder.
Qed.

Lemma run_ops_rowid_order (ops : list pool_op) (w : world) :
  rowid_order (p_id <$> proxies w) →
  rowid_order (p_id <$> proxies (run_ops ops w)).
Proof.
  revert w. induction ops as [|op ops IH]; intros w Horder; [exact Horder|].
  simpl. apply IH. destruct op as [id|id|now|rows]; simpl.
  - rewrite update_where_id_ids by reflexivity. exact Horder.
  - rewrite update_where_id_ids by reflexivity. exact Horder.
  - unfold bind, ret.
    destruct (get_next_proxy_cases now w)
      as [(_ & _ & Hr)|[(_ & Hr)|(ps & q & _ & _ & Hr)]]; rewrite Hr; simpl;
      try exact Horder.
    rewrite update_where_id_ids by reflexivity. exact Horder.
  - unfold load_proxies.
    pose proof (load_rows_rowid_order rows w Horder) as Hload.
    destruct (load_rows rows w) as [[[]|e] w1]; simpl in *; assumption.
Qed.

(** X2: the circuit breaker holds across operations.  With distinct ids, a
    proxy that starts healthy and then has five or more failures reported, in
    any run of pool operations (loads, acquisitions, reports for other
    proxies) that contains no reset of its id, is not returned by
    [get_next_proxy]. *)
Theorem tripped_proxy_is_skipped (ops : list pool_op) (w : world) (k : nat)
    (r : proxy_row) (now : string) :
  NoDup (p_id <$> proxies w) →
  proxies w !! k = Some r →
  p_failure_count r = 0 → p_status r = "active" →
  Forall (λ op, op ≠ ReportHealthy (p_id r)) ops →
  (5 ≤ length (filter (is_failure_of (p_id r)) ops))%nat →
  ∀ p, fst (get_next_proxy now (run_ops ops w)) = Ok (Some p) →
       p_id (row p) ≠ p_id r.
Proof.
  intros Hnodup Hk Hfc Hst Hops Hfive p Hrun Hid.
  destruct (run_ops_health ops w k r Hk Hops) as (r' & Hk' & Hid' & _ & Hst').
  { rewrite Hfc, Hst. reflexivity. }
  cbv zeta in Hst'. rewrite Hfc in Hst'.
  rewrite decide_True in Hst' by (unfold threshold; lia).
  destruct (get_next_proxy_cases now (run_ops ops w))
    as [(_ & _ & Hr)|[(_ & Hr)|(ps & q & Hps & Hq & Hr)]];
    rewrite Hr in Hrun; try discriminate.
  injection Hrun as ->.
  destruct (chosen_is_available _ ps p Hps Hq) as (Hin & [Hactive _] & _).
  assert (row p = r') as Hsame.
  { apply (same_id_same_row (proxies (run_ops ops w))).
    - apply run_ops_nodup, Hnodup.
    - exact Hin.
    - eapply list_elem_of_lookup_2. exact Hk'.
    - congruence. }
  rewrite Hsame, Hst' in Hactive. discriminate.
Qed.

(** X3: [reset_failure_count] switches a proxy back on.  The stored rows with
    that id get status ['active'] and count 0 and keep their other columns,
    the rows with another id are untouched, and straight after the reset
    [get_next_proxy] cannot report that no proxy is available. *)
Theorem reset_rearms (w : world) (k : nat) (r : proxy_row) (now : string) :
  proxies w !! k = Some r →
  let w' := snd (reset_failure_count (p_id r) w) in
  proxies w' !! k = Some (with_health "active" 0 r) ∧
  available (with_health "active" 0 r) ∧
  (∀ k' r', proxies w !! k' = Some r' → p_id r' ≠ p_id r →
            proxies w' !! k' = Some r') ∧
  with_health (p_status r) (p_failure_count r) (with_health "active" 0 r) = r ∧
  fst (get_next_proxy now w') ≠ Ok None.
Proof.
  intros Hk w'.
  assert (proxies w' !! k = Some (with_health "active" 0 r)) as Hk'.
  { subst w'. simpl. rewrite update_where_id_lookup, Hk. simpl.
    rewrite decide_True by reflexivity. reflexivity. }
  assert (available (with_health "active" 0 r)) as Hav.
  { split; [reflexivity|]. simpl. unfold threshold. lia. }
  split; [exact Hk'|]. split; [exact Hav|]. split; [|split].
  - intros k' r' Hk1 Hne. subst w'. simpl.
    rewrite update_where_id_lookup, Hk1. simpl.
    rewrite decide_False by exact Hne. reflexivity.
  - destruct r; reflexivity.
  - intros Hnone.
    destruct (get_next_proxy_cases now w')
      as [(_ & _ & Hr)|[(Hnil & _)|(ps & q & _ & _ & Hr)]];
      try (rewrite Hr in Hnone; discriminate).
    apply filter_available_nil in Hnil. rewrite Forall_forall in Hnil.
    apply (Hnil (with_health "active" 0 r)); [|exact Hav].
    eapply list_elem_of_lookup_2. exact Hk'.
Qed.

(** X4: a report for an id that is not stored is a no-op.  Neither
    [_increment_failure_count] nor [reset_failure_count] raises or changes
    anything when no row has the id. *)
Theorem unknown_id_is_ignored (w : world) (id : Z) :
  id ∉ p_id <$> proxies w →
  _increment_failure_count id w = (Ok tt, w) ∧
  reset_failure_count id w = (Ok tt, w).
Proof.
  intros Habsent.
  unfold _increment_failure_count, reset_failure_count, modify.
  rewrite !update_where_id_absent by exact Habsent.
  destruct w; split; reflexivity.
Qed.

(** X5: rotation.  When the clock reading [now] is later than every key in
    the pool and a second available proxy with another id exists, the
    acquisition that follows does not return the proxy just returned. *)
Theorem consecutive_acquisitions_differ (now now' : string) (w w1 : world)
    (p : proxy) :
  get_next_proxy now w = (Ok (Some p), w1) →
  (∀ r, r ∈ proxies w → available r → String.ltb (row_key r) now = true) →
  (∃ r, r ∈ proxies w ∧ available r ∧ p_id r ≠ p_id (row p)) →
  ∀ q, fst (get_next_proxy now' w1) = Ok (Some q) →
       p_id (row q) ≠ p_id (row p).
Proof.
  intros Hrun Hearlier (r0 & Hr0 & Hav0 & Hne0) q Hrun' Hid.
  destruct (get_next_proxy_cases now w)
    as [(_ & _ & Hr)|[(_ & Hr)|(ps & p' & _ & _ & Hr)]];
    rewrite Hr in Hrun; try discriminate.
  injection Hrun as -> <-.
  destruct (get_next_proxy_cases now'
              (set_proxies (update_where_id (p_id (row p))
                              (with_last_used (Some now)) (proxies w)) w))
    as [(_ & _ & Hr')|[(_ & Hr')|(qs & q' & Hqs & Hq & Hr')]];
    rewrite Hr' in Hrun'; try discriminate.
  injection Hrun' as ->.
  destruct (chosen_is_available _ qs q Hqs Hq) as (Hin & _ & Hmin).
  simpl in Hin, Hmin.
  assert (r0 ∈ update_where_id (p_id (row p)) (with_last_used (Some now))
                 (proxies w)) as Hr0'.
  { apply update_where_id_elem. exists r0. split; [exact Hr0|].
    rewrite decide_False by exact Hne0. reflexivity. }
  pose proof (Hmin r0 Hr0' Hav0) as Hle.
  pose proof (Hearlier r0 Hr0 Hav0) as Hlt.
  apply update_where_id_elem in Hin as (r1 & _ & Hq1).
  rewrite decide_True in Hq1 by (rewrite Hq1 in Hid;
    destruct (decide (p_id r1 = p_id (row p))); [assumption|congruence]).
  unfold sort_key, row_key in Hle. rewrite Hq1 in Hle.
  change (p_last_used (with_last_used (Some now) r1)) with (Some now) in Hle.
  rewrite or_default_some in Hle.
  destruct (decide (now = "")) as [->|_].
  - unfold String.ltb in Hlt. destruct (row_key r0); discriminate.
  - exact (string_ltb_not_leb _ _ Hlt Hle).
Qed.

Lemma rowid_order_filter (P : proxy_row → Prop) `{∀ r, Decision (P r)}
    (t : list proxy_row) :
  rowid_order (p_id <$> t) → rowid_order (p_id <$> filter P t).
Proof.
  unfold rowid_order. induction t as [|r t IH]; [intros _; constructor|].
  rewrite fmap_cons. intros Hsorted.
  apply StronglySorted_inv in Hsorted as [Hrest Hless].
  rewrite filter_cons. destruct (decide (P r)); [|apply IH; exact Hrest].
  rewrite fmap_cons. constructor; [apply IH; exact Hrest|].
  rewrite Forall_forall in Hless. apply Forall_forall. intros id Hid.
  apply Hless. apply list_elem_of_fmap in Hid as (r' & -> & Hr').
  apply list_elem_of_filter in Hr' as [_ Hr']. apply list_elem_of_fmap. eauto.
Qed.

(** What an entry's password is: none when the row stores no secret or an
    empty one, the decryption of the stored token otherwise. *)
Lemma to_proxy_password (r : proxy_row) (p : proxy) :
  to_proxy r = Ok p →
  (truthy (p_password_encrypted r) = false ∧ password p = None)
  ∨ (∃ token m, p_password_encrypted r = Some token ∧ token ≠ "" ∧
       fernet_decrypt (encode token) = Some m ∧
       password p = Some (decode m)).
Proof.
  unfold to_proxy, decrypt_str.
  destruct (p_password_encrypted r) as [[|c token]|]; simpl;
    try (intros [= <-]; left; split; reflexivity).
  destruct (fernet_decrypt _) as [m|] eqn:Hm; [|discriminate].
  intros [= <-]. right. exists (String c token), m.
  split; [reflexivity|]. split; [discriminate|]. split; [exact Hm|reflexivity].
Qed.

Lemma to_proxy_stale (r : proxy_row) (e : exn) :
  to_proxy r = Raise e →
  ∃ token, p_password_encrypted r = Some token ∧ token ≠ "" ∧
           fernet_decrypt (encode token) = None.
Proof.
  unfold to_proxy, decrypt_str.
  destruct (p_password_encrypted r) as [[|c token]|]; simpl; try discriminate.
  destruct (fernet_decrypt _) as [m|] eqn:Hm; [discriminate|].
  intros _. exists (String c token).
  split; [reflexivity|]. split; [discriminate|exact Hm].
Qed.

(** X6: [get_available_proxies] changes nothing and lists the stored rows
    with status ['active'] and fewer than 5 failures, these and no others,
    each once and by growing id (the table being in rowid order); an entry
    has no password when its row stores no secret or an empty one, and the
    decryption of the stored token otherwise; the call raises only
    [InvalidToken], and only when the token of an available row does not
    decrypt. *)
Theorem get_available_proxies_lists (w : world) :
  rowid_order (p_id <$> proxies w) →
  snd (get_available_proxies w) = w ∧
  match fst (get_available_proxies w) with
  | Ok ps =>
      (∀ r, r ∈ row <$> ps ↔
            r ∈ proxies w ∧ p_status r = "active" ∧ p_failure_count r < 5) ∧
      rowid_order ((λ p, p_id (row p)) <$> ps) ∧
      Forall (λ p,
                (truthy (p_password_encrypted (row p)) = false ∧
                 password p = None)
                ∨ (∃ token m,
                     p_password_encrypted (row p) = Some token ∧
                     token ≠ "" ∧
                     fernet_decrypt (encode token) = Some m ∧
                     password p = Some (decode m))) ps
  | Raise e =>
      e = InvalidToken ∧
      Exists (λ r, (p_status r = "active" ∧ p_failure_count r < 5) ∧
                   ∃ token, p_password_encrypted r = Some token ∧
                            token ≠ "" ∧
                            fernet_decrypt (encode token) = None)
        (proxies w)
  end.
Proof.
  intros Horder.
  unfold get_available_proxies, bind, get, lift. simpl.
  split; [reflexivity|].
  destruct (to_proxies (filter available (proxies w))) as [ps|e] eqn:Hps.
  - pose proof (to_proxies_rows _ _ Hps) as Hrows.
    split; [|split].
    + intros r. rewrite Hrows, list_elem_of_filter. unfold available, threshold.
      tauto.
    + change ((λ p, p_id (row p)) <$> ps) with (p_id ∘ row <$> ps).
      rewrite list_fmap_compose, Hrows.
      apply rowid_order_filter. exact Horder.
    + apply to_proxies_each in Hps.
      apply Forall_forall. intros p Hp.
      apply list_elem_of_lookup_1 in Hp as [i Hi].
      destruct (Forall2_lookup_r _ _ _ _ _ Hps Hi) as (r & _ & Hto).
      pose proof (to_proxy_row _ _ Hto) as Hrow. rewrite Hrow.
      exact (to_proxy_password r p Hto).
  - clear -Hps. revert Hps.
    induction (proxies w) as [|r t IH]; [discriminate|].
    rewrite filter_cons. destruct (decide (available r)) as [Hav|].
    + simpl. destruct (to_proxy r) as [p|e'] eqn:Hto.
      * destruct (to_proxies (filter available t)) as [|e''] eqn:Hrest;
          [discriminate|].
        intros [= <-]. destruct (IH eq_refl) as [-> Hex].
        split; [reflexivity|]. constructor 2. exact Hex.
      * intros [= <-]. pose proof (to_proxy_raise _ _ Hto) as ->.
        split; [reflexivity|]. constructor.
        split; [exact Hav|]. eapply to_proxy_stale. exact Hto.
    + intros Hrest. destruct (IH Hrest) as [-> Hex].
      split; [reflexivity|]. constructor 2. exact Hex.
Qed.

End WithCipher.
End HealthFacts.

(** ** Stored secrets *)

Module SecretFacts.
Import Py Db Run ProxyManager AccountManager.
Import PyFacts PoolFacts AccountFacts HealthFacts.

Section WithCipher.
Context `{FernetCorrect}.


Lemma decode_cons_truthy (b : byte) (l : list byte) :
  truthy (Some (decode (b :: l))) = true.
Proof. reflexivity. Qed.






End WithCipher.

Section AnyCipher.
Context `{Fernet}.

Lemma decrypt_raise (v : option string) (e : exn) :
  _decrypt v = Raise e → e = AttributeError ∨ e = InvalidToken.
Proof.
  unfold _decrypt. destruct v as [token|]; [|intros [= <-]; auto].
  destruct (fernet_decrypt _); [discriminate|intros [= <-]; auto].
Qed.

(** The dict of the comprehension, for distinct ids. *)
Lemma decrypt_all_spec (rows : list account_row) :
  ∀ m0,
  match decrypt_all rows m0 with
  | Ok m =>
      Forall (λ a, ∃ pw, _decrypt (a_password_encrypted a) = Ok pw) rows ∧
      (∀ id, id ∉ a_id <$> rows → m !! id = m0 !! id) ∧
      (NoDup (a_id <$> rows) →
       ∀ a, a ∈ rows →
         ∃ pw, _decrypt (a_password_encrypted a) = Ok pw ∧
               m !! a_id a = Some pw)
  | Raise e =>
      Exists (λ a, _decrypt (a_password_encrypted a) = Raise e) rows
  end.
Proof.
  induction rows as [|a rows IH]; intros m0; simpl.
  - split; [constructor|]. split; [auto|].
    intros _ a Ha. inversion Ha.
  - destruct (_decrypt (a_password_encrypted a)) as [pw|e] eqn:Hdec.
    + specialize (IH (<[a_id a := pw]> m0)).
      destruct (decrypt_all rows (<[a_id a := pw]> m0)) as [m|e].
      * destruct IH as (Hall & Hout & Hin).
        split; [constructor; eauto|]. split.
        -- intros id Hid.
           change (id ∉ a_id a :: (a_id <$> rows)) in Hid.
           apply not_elem_of_cons in Hid as [Hne Hid].
           rewrite (Hout id Hid). apply lookup_insert_ne. congruence.
        -- intros Hnodup a' Ha'.
           change (NoDup (a_id a :: (a_id <$> rows))) in Hnodup.
           apply NoDup_cons in Hnodup as [Hfresh Hnodup].
           apply elem_of_cons in Ha' as [->|Ha'].
           ++ exists pw. split; [exact Hdec|].
              rewrite (Hout _ Hfresh). apply lookup_insert_eq.
           ++ apply Hin; assumption.
      * constructor 2. exact IH.
    + constructor. exact Hdec.
Qed.

Lemma rowid_order_nodup (ids : list Z) : rowid_order ids → NoDup ids.
Proof.
  unfold rowid_order. induction 1 as [|x ids _ IH Hless]; constructor.
  - intros Hin. rewrite Forall_forall in Hless. specialize (Hless x Hin). lia.
  - exact IH.
Qed.

(** X8: the export is all or nothing and reads only.  [export_accounts]
    never changes the store.  When the secret of some account is NULL
    ([AttributeError]) or does not decrypt ([InvalidToken]) it raises and
    exports nothing; otherwise it returns one record per stored account, in
    the order of the table (which is in rowid order), with each of the
    twelve selected columns of the account (user name, email, the two dates
    of creation and login, proxy id, status, the two karmas, the two dates
    of activity and the two totals) and the account's own decrypted
    password. *)
Theorem export_all_or_nothing (w : world) :
  rowid_order (a_id <$> accounts w) →
  snd (export_accounts w) = w ∧
  match fst (export_accounts w) with
  | Ok out =>
      Forall2
        (λ a x, x_username x = a_username a ∧ x_email x = a_email a ∧
                x_creation_date x = a_creation_date a ∧
                x_last_login x = a_last_login a ∧
                x_proxy_id x = a_proxy_id a ∧
                x_account_status x = a_account_status a ∧
                x_karma_post x = a_karma_post a ∧
                x_karma_comment x = a_karma_comment a ∧
                x_last_post_date x = a_last_post_date a ∧
                x_last_comment_date x = a_last_comment_date a ∧
                x_total_posts x = a_total_posts a ∧
                x_total_comments x = a_total_comments a ∧
                ∃ pw, _decrypt (a_password_encrypted a) = Ok pw ∧
                      x_password x = Some pw)
        (accounts w) out
  | Raise e =>
      (e = AttributeError ∨ e = InvalidToken) ∧
      Exists (λ a, _decrypt (a_password_encrypted a) = Raise e) (accounts w)
  end.
Proof.
  intros Horder. pose proof (rowid_order_nodup _ Horder) as Hnodup.
  unfold export_accounts, bind, get, lift, ret. simpl.
  pose proof (decrypt_all_spec (accounts w) ∅) as Hspec.
  destruct (decrypt_all (accounts w) ∅) as [m|e]; simpl.
  - split; [reflexivity|]. destruct Hspec as (_ & _ & Hin).
    apply Forall2_fmap_r, Forall2_same_length_lookup. split; [reflexivity|].
    intros i a a' Ha Ha'. assert (a' = a) as -> by congruence.
    repeat (split; [reflexivity|]). simpl.
    apply (Hin Hnodup). eapply list_elem_of_lookup_2. exact Ha.
  - split; [reflexivity|]. split; [|exact Hspec].
    apply Exists_exists in Hspec as (a & _ & Ha).
    eapply decrypt_raise. exact Ha.
Qed.

Lemma filter_username_app (username : string) (l : list account_row)
    (new : account_row) :
  filter (λ a, a_username a = username) (l ++ [new]) =
  filter (λ a, a_username a = username) l ++
  (if decide (a_username new = username) then [new] else []).
Proof.
  rewrite filter_app, filter_cons, filter_nil. reflexivity.
Qed.

(** X9: [_save_account] keeps user names unique.  Saving under a user name
    that is stored raises [IntegrityError] and changes nothing.  Otherwise
    one row is appended, with a new id, status ['active'], zero counters and
    an encryption of the password; the rows that were stored are untouched,
    ids and user names stay distinct if they were, and the lookup of any
    other user name gives what it gave before. *)
Theorem save_account_unique (w : world) (username password : string)
    (email : option string) (proxy : ProxyManager.proxy) (now : string)
    (user_agent : option string) :
  (Exists (λ a, a_username a = username) (accounts w) →
   _save_account username password email proxy now user_agent w
     = (Raise IntegrityError, w))
  ∧ (¬ Exists (λ a, a_username a = username) (accounts w) →
     ∃ w1 new,
       _save_account username password email proxy now user_agent w
         = (Ok tt, w1) ∧
       accounts w1 = accounts w ++ [new] ∧
       proxies w1 = proxies w ∧ activity_log w1 = activity_log w ∧
       a_username new = username ∧ a_email new = email ∧
       a_password_encrypted new = Some (_encrypt password) ∧
       a_account_status new = "active" ∧
       a_total_posts new = 0 ∧ a_total_comments new = 0 ∧
       a_proxy_id new = Some (p_id (row proxy)) ∧
       (NoDup (a_id <$> accounts w) → NoDup (a_id <$> accounts w1)) ∧
       (NoDup (a_username <$> accounts w) →
        NoDup (a_username <$> accounts w1)) ∧
       ∀ other, other ≠ username →
         fst (get_account_details other w1)
           = fst (get_account_details other w)).
Proof.
  unfold _save_account, bind, get, raise, modify. split.
  - intros Hex. rewrite decide_True by exact Hex. reflexivity.
  - intros Hfresh. rewrite decide_False by exact Hfresh.
    eexists. eexists. split; [reflexivity|]. simpl.
    repeat (split; [reflexivity|]).
    split; [|split].
    + intros Hnodup. rewrite fmap_app. apply NoDup_app.
      split; [exact Hnodup|]. split; [|apply NoDup_singleton].
      intros x Hx Hnew. apply list_elem_of_singleton in Hnew. subst x.
      apply (foldr_max_ge (accounts_seq w)) in Hx.
      unfold next_id in Hx. simpl in Hx. lia.
    + intros Hnodup. rewrite fmap_app. apply NoDup_app.
      split; [exact Hnodup|]. split; [|apply NoDup_singleton].
      intros x Hx Hnew. apply list_elem_of_singleton in Hnew. subst x.
      apply Hfresh. apply list_elem_of_fmap in Hx as (a & Ha & Hin).
      apply Exists_exists. exists a. auto.
    + intros other Hother.
      unfold get_account_details, bind, get, lift, ret. simpl.
      rewrite filter_username_app. simpl.
      rewrite decide_False by congruence. rewrite app_nil_r.
      destruct (filter _ (accounts w)) as [|a l]; [reflexivity|].
      destruct (_decrypt _); reflexivity.
Qed.

End AnyCipher.
End SecretFacts.

(** ** Setting the jobs up and running them *)

Module SchedulingFacts.
Import Py Db Run PyFloat ProxyManager AccountManager EngagementScheduler.
Import Scheduling PyFacts PoolFacts JobFacts.



Section WithCipher.
Context `{Fernet}.

(** X11: an activity window across midnight admits no hour.  When the
    configured start hour is after the end hour, no job ever acts: whatever
    the hour, a fired job is cancelled (account missing), returns [None], or
    raises what the account lookup raised, and the stored data is not
    changed. *)
Theorem window_across_midnight_never_opens (cfg : config) (o : oracle)
    (j : job) (w : world) :
  default 8 (activity_start cfg) > default 23 (activity_end cfg) →
  _is_within_activity_hours cfg (hour o) = false ∧
  same_data w (snd (run_job cfg o j w)) ∧
  (fst (run_job cfg o j w) = Ok CancelJob ∨
   fst (run_job cfg o j w) = Ok ReturnedNone ∨
   ∃ e, fst (run_job cfg o j w) = Raise e ∧
        fst (get_account_details (job_username j) w) = Raise e).
Proof.
  intros Hwrap.
  assert (_is_within_activity_hours cfg (hour o) = false) as Hclosed.
  { unfold _is_within_activity_hours. apply bool_decide_eq_false. lia. }
  split; [exact Hclosed|].
  rewrite run_job_unfold, Hclosed.
  destruct (fst (get_account_details (job_username j) w)) as [[d|]|e]; simpl.
  - split; [repeat split|]. auto.
  - split; [repeat split|]. auto.
  - split; [repeat split|]. right. right. eauto.
Qed.


(** X13: the activity log and the counters move together.  A job either
    leaves the accounts and the activity log as they are, or the submission
    returned an id and the job appends exactly one record (the job's account
    id and kind, a configured target, the ids of the submission, status
    ['success']) and, in the same run, changes the rows with the job's
    account id, and only them: a post job adds one to [total_posts] and sets
    [last_post_date], a comment job adds one to [total_comments] and sets
    [last_comment_date], every other column staying as it is; it then
    returns the hours.  Earlier records are never changed or removed. *)
Theorem record_matches_counter (cfg : config) (o : oracle) (j : job)
    (w : world) :
  let w' := snd (run_job cfg o j w) in
  (activity_log w' = activity_log w ∧ accounts w' = accounts w)
  ∨ (∃ subreddit id target reply,
       login_ok o = true ∧ submission o j = Some id ∧ id ≠ "" ∧
       subreddit ∈ target_subreddits cfg ∧
       match j with
       | PostJob _ _ => target = Some id ∧ reply = None
       | CommentJob _ _ =>
           (∃ post, post ∈ trending_posts o ∧ target = Some post) ∧
           reply = Some id
       end ∧
       activity_log w' = activity_log w ++
         [{| l_account_id := job_account_id j;
             l_activity_type := job_kind j;
             l_activity_date := now_log o; l_subreddit := subreddit;
             l_post_id := target; l_comment_id := reply;
             l_status := "success"; l_details := None |}] ∧
       accounts w' =
         (λ a, if decide (a_id a = job_account_id j)
               then match j with
                    | PostJob _ _ =>
                        with_activity (Some (now_account o))
                          (a_last_comment_date a) (a_total_posts a + 1)
                          (a_total_comments a) a
                    | CommentJob _ _ =>
                        with_activity (a_last_post_date a)
                          (Some (now_account o)) (a_total_posts a)
                          (a_total_comments a + 1) a
                    end
               else a) <$> accounts w ∧
       ∃ h, fst (run_job cfg o j w) = Ok (Hours h)).
Proof. apply run_job_audit. Qed.

End WithCipher.
End SchedulingFacts.

(** ** The configuration *)

Module ConfigFacts.
Import Py Config.

Section Values.
Context {V : Type}.
Implicit Types (config : gmap string (gmap string V)) (v : V).

Lemma or_default_nonempty (key : string) :
  key ≠ "" → truthy (Some key) = true ∧ or_default (Some key) "" = key.
Proof. destruct key; [congruence|]. split; reflexivity. Qed.

(** X14: [set] and [get] on the configuration.  A value set under a
    non-empty key is what [get] returns for that section and key; [get] for
    another section (with or without a key) or for another non-empty key is
    not affected; setting a key again replaces the value.  [get] with the
    empty key returns the whole section, like [get] without a key, so a value
    set under the empty key is not read back as a value. *)
Theorem get_after_set config (section key : string) v :
  (key ≠ "" → get (set config section key v) section (Some key) = GotValue v)
  ∧ (∀ section' key',
       section' ≠ section →
       get (set config section key v) section' key' = get config section' key')
  ∧ (∀ key', key' ≠ "" → key' ≠ key →
       get (set config section key v) section (Some key')
         = get config section (Some key'))
  ∧ (∀ v', set (set config section key v) section key v'
             = set config section key v')
  ∧ get (set config section "" v) section (Some "")
      = GotSection (<["" := v]> (section_of config section))
  ∧ get (set config section key v) section None
      = GotSection (<[key := v]> (section_of config section)).
Proof.
  split; [|split; [|split; [|split; [|split]]]].
  - intros Hkey. destruct (or_default_nonempty key Hkey) as [Ht Hd].
    unfold get. rewrite Ht, Hd. unfold set, section_of.
    rewrite lookup_insert_eq. simpl. rewrite lookup_insert_eq. reflexivity.
  - intros section' key' Hsec. unfold get, set, section_of.
    rewrite lookup_insert_ne by congruence. reflexivity.
  - intros key' Hkey' Hne. destruct (or_default_nonempty key' Hkey') as [Ht Hd].
    unfold get. rewrite Ht, Hd. unfold set, section_of.
    rewrite lookup_insert_eq. simpl.
    rewrite lookup_insert_ne by congruence. reflexivity.
  - intros v'. unfold set, section_of. rewrite lookup_insert_eq. simpl.
    rewrite insert_insert_eq, insert_insert_eq. reflexivity.
  - unfold get, set, section_of. simpl. rewrite lookup_insert_eq. reflexivity.
  - unfold get, set, section_of. simpl. rewrite lookup_insert_eq. reflexivity.
Qed.

End Values.
End ConfigFacts.

(** ** The activity score *)

Module ScoreFacts.
Import PyFloat Utils TimingFacts.

Lemma min_at_most_left (a b : float) : a ≠ S754_nan → leb (min a b) a = true.
Proof.
  intros Hnan. unfold min. destruct (ltb b a) eqn:Hlt.
  - apply ltb_leb. exact Hlt.
  - apply leb_refl. exact Hnan.
Qed.

(** X15: the activity score never exceeds 1.  Whatever the weekday name,
    the hour and the random draw are, [calculate_activity_score] returns a
    number that is at most [1.0] (it is [1.0] itself when the quotient is not
    below it); the hour bias is one of 0.5, 1.0, 1.2, 1.3 and 1.5, and a
    weekday name that is not one of the seven English names gets the bias
    [1.0]. *)
Theorem activity_score_at_most_one (weekday : string) (hour : Z) (u : float) :
  leb (calculate_activity_score weekday hour u) (tenths 10) = true
  ∧ (get_hour_bias hour ∈
       [tenths 5; tenths 10; tenths 12; tenths 13; tenths 15])
  ∧ (hour < 0 ∨ 23 < hour → get_hour_bias hour = tenths 10)
  ∧ (weekday ∉ ["monday"; "tuesday"; "wednesday"; "thursday"; "friday";
                "saturday"; "sunday"] →
     get_weekday_bias weekday = tenths 10).
Proof.
  split; [|split; [|split]].
  - unfold calculate_activity_score. apply min_at_most_left. discriminate.
  - unfold get_hour_bias.
    repeat case_bool_decide; apply list_elem_of_In; simpl; tauto.
  - intros Hout. unfold get_hour_bias.
    repeat case_bool_decide; try reflexivity; lia.
  - intros Hother. unfold get_weekday_bias.
    assert (∀ name, In name ["monday"; "tuesday"; "wednesday"; "thursday";
                             "friday"; "saturday"; "sunday"] →
                    name ≠ weekday) as Hne.
    { intros name Hname <-. apply Hother, list_elem_of_In, Hname. }
    rewrite !lookup_insert_ne by (apply Hne; simpl; tauto).
    rewrite lookup_singleton_ne by (apply Hne; simpl; tauto).
    reflexivity.
Qed.

End ScoreFacts.

(** ** Generated passwords *)

Module GeneratedFacts.
Import Py Generated.

Lemma choice_raise {A} (draw : nat) (l : list A) (e : exn) :
  choice draw l = Raise e → l = [].
Proof. destruct l; [reflexivity|discriminate]. Qed.

Lemma choices_spec (draw : nat → nat) (n : nat) :
  ∀ i, ∃ cs, choices draw i n = Ok cs ∧ length cs = n ∧
             Forall (λ c, c ∈ String.list_ascii_of_string chars) cs.
Proof.
  induction n as [|n IH]; intros i; cbn [choices].
  - exists []. repeat split. constructor.
  - destruct (choice (draw i) (String.list_ascii_of_string chars))
      as [c|e] eqn:Hc.
    + destruct (IH (S i)) as (cs & -> & Hlen & Hall).
      exists (c :: cs). split; [reflexivity|]. split; [simpl; lia|].
      constructor; [|exact Hall].
      eapply JobFacts.choice_elem. exact Hc.
    + apply choice_raise in Hc. discriminate Hc.
Qed.

Lemma generate_password_total (draw : nat → nat) (length : Z) :
  ∃ password, _generate_password draw length = Ok password ∧
    String.length password = Z.to_nat length ∧
    Forall (λ c, c ∈ String.list_ascii_of_string chars)
      (String.list_ascii_of_string password).
Proof.
  unfold _generate_password.
  destruct (choices_spec draw (Z.to_nat length) 0) as (cs & -> & Hlen & Hall).
  exists (String.string_of_list_ascii cs). split; [reflexivity|].
  rewrite String.list_ascii_of_string_of_list_ascii.
  split; [|exact Hall].
  rewrite <- Hlen. clear. induction cs as [|c cs IH]; simpl; congruence.
Qed.


End GeneratedFacts.

(** ** Registration *)

Module RegistrationFacts.
Import Py Db Run ProxyManager AccountManager Registration.
Import PoolFacts JobFacts GeneratedFacts.

Section WithCipher.
Context `{Fernet}.

Lemma save_account_cases (username password : string) (email : option string)
    (proxy : proxy) (now : string) (user_agent : option string) (w : world) :
  _save_account username password email proxy now user_agent w
    = (Raise IntegrityError, w)
  ∨ ∃ w1 new,
      _save_account username password email proxy now user_agent w
        = (Ok tt, w1) ∧
      accounts w1 = accounts w ++ [new] ∧
      activity_log w1 = activity_log w ∧
      a_account_status new = "active" ∧ a_email new = email ∧
      a_total_posts new = 0 ∧ a_total_comments new = 0 ∧
      a_password_encrypted new = Some (_encrypt password).
Proof.
  unfold _save_account, bind, get, raise, modify.
  destruct (decide (Exists _ (accounts w))); [left; reflexivity|].
  right. eexists. eexists. split; [reflexivity|]. simpl. repeat split.
Qed.

(** One turn of the loop. *)
Lemma register_each_step (user_agent : option string)
    (attempt_at : nat → attempt) (emails : list (option string))
    (i remaining : nat) (n : Z) (w : world) :
  register_each user_agent attempt_at emails i (S remaining) n w =
  match emails !! i with
  | None => (Ok n, w)
  | Some email =>
      match get_next_proxy (now_proxy (attempt_at i)) w with
      | (Raise e, w1) => (Raise e, w1)
      | (Ok None, w1) => (Ok n, w1)
      | (Ok (Some p), w1) =>
          match Generated._generate_password
                  (password_draws (attempt_at i)) 16 with
          | Raise e => (Raise e, w1)
          | Ok password =>
              if registered (attempt_at i) then
                match _save_account (username (attempt_at i)) password email
                        p (now_save (attempt_at i)) user_agent w1 with
                | (Ok _, w2) =>
                    register_each user_agent attempt_at emails (S i)
                      remaining (n + 1) w2
                | (Raise _, w2) =>
                    register_each user_agent attempt_at emails (S i)
                      remaining n w2
                end
              else
                register_each user_agent attempt_at emails (S i) remaining
                  n w1
          end
      end
  end.
Proof.
  cbn [register_each]. destruct (emails !! i) as [email|]; [|reflexivity].
  unfold bind at 1.
  destruct (get_next_proxy (now_proxy (attempt_at i)) w) as [[[p|]|e] w1];
    try reflexivity.
  unfold bind, lift.
  destruct (Generated._generate_password _ 16); [|reflexivity].
  destruct (registered (attempt_at i)); reflexivity.
Qed.

Lemma register_each_accounting (user_agent : option string)
    (attempt_at : nat → attempt) (emails : list (option string))
    (remaining : nat) :
  ∀ (i : nat) (n : Z) (w : world),
  ∃ new,
    accounts (snd (register_each user_agent attempt_at emails i remaining n w))
      = accounts w ++ new ∧
    activity_log
      (snd (register_each user_agent attempt_at emails i remaining n w))
      = activity_log w ∧
    (length new ≤ remaining)%nat ∧ (length new ≤ length emails - i)%nat ∧
    Forall (registered_row emails) new ∧
    ∀ m, fst (register_each user_agent attempt_at emails i remaining n w)
           = Ok m → m = n + Z.of_nat (length new).
Proof.
  induction remaining as [|remaining IH]; intros i n w.
  { exists []. simpl. rewrite app_nil_r. repeat split; try lia.
    - constructor.
    - intros m [= <-]. lia. }
  assert (∀ w0 : world, accounts w0 = accounts w →
            activity_log w0 = activity_log w →
            ∃ new : list account_row,
            accounts w0 = accounts w ++ new ∧
            activity_log w0 = activity_log w ∧
            (length new ≤ S remaining)%nat ∧
            (length new ≤ length emails - i)%nat ∧
            Forall (registered_row emails) new ∧
            ∀ m, Ok n = Ok m → m = n + Z.of_nat (length new)) as Hstop.
  { intros w0 Ha Hl. exists []. rewrite app_nil_r.
    repeat split; simpl; try lia; try assumption.
    - constructor.
    - intros m [= <-]. lia. }
  rewrite register_each_step.
  destruct (emails !! i) as [email|] eqn:Hemail; [|apply Hstop; reflexivity].
  assert (i < length emails)%nat as Hi by (eapply lookup_lt_Some; exact Hemail).
  destruct (get_next_proxy_keeps (now_proxy (attempt_at i)) w) as [Hacc Hlog].
  destruct (get_next_proxy (now_proxy (attempt_at i)) w) as [[[p|]|e] w1];
    simpl in Hacc, Hlog.
  - destruct (generate_password_total (password_draws (attempt_at i)) 16)
      as (password & -> & Hlen & _).
    destruct (registered (attempt_at i)).
    + destruct (save_account_cases (username (attempt_at i)) password email p
                  (now_save (attempt_at i)) user_agent w1)
        as [Hsave|(w2 & new & Hsave & Hacc2 & Hlog2 & Hst & Hem & Hp & Hc & He)];
        rewrite Hsave.
      * destruct (IH (S i) n w1) as (news & Ha & Hl & Hn1 & Hn2 & Hall & Hm).
        exists news. rewrite Ha, Hl, Hacc, Hlog.
        repeat split; try lia; assumption.
      * destruct (IH (S i) (n + 1) w2)
          as (news & Ha & Hl & Hn1 & Hn2 & Hall & Hm).
        exists (new :: news). rewrite Ha, Hl, Hacc2, Hlog2, Hacc, Hlog.
        rewrite <- app_assoc. simpl.
        split; [reflexivity|]. split; [reflexivity|].
        split; [lia|]. split; [lia|]. split.
        -- constructor; [|exact Hall].
           split; [exact Hst|]. split.
           { rewrite Hem. eapply list_elem_of_lookup_2. exact Hemail. }
           split; [exact Hp|]. split; [exact Hc|]. eauto.
        -- intros m Hrun. rewrite (Hm m Hrun). lia.
    + destruct (IH (S i) n w1) as (news & Ha & Hl & Hn1 & Hn2 & Hall & Hm).
      exists news. rewrite Ha, Hl, Hacc, Hlog.
      repeat split; try lia; assumption.
  - apply Hstop; assumption.
  - destruct (Hstop w1 Hacc Hlog) as (new & Ha & Hl & Hn1 & Hn2 & Hall & _).
    exists new. repeat split; try assumption. intros m Hm. discriminate.
Qed.

Lemma load_proxies_keeps (rows : list csv_row) (w : world) :
  fst (load_proxies rows w) = Ok tt ∧
  accounts (snd (load_proxies rows w)) = accounts w ∧
  activity_log (snd (load_proxies rows w)) = activity_log w.
Proof.
  unfold load_proxies.
  destruct (well_formed_all_or_some rows) as [Hwf|Hbad].
  - destruct (load_rows_ok rows w Hwf) as (w' & -> & Ha & Hl & _).
    simpl. auto.
  - destruct (load_rows_raise rows w Hbad) as (e & w' & -> & _).
    simpl. auto.
Qed.

(** X17: the accounting of [register_accounts].  Without a readable
    accounts file or without any email it returns [False] and touches
    nothing, the proxies file included.  Otherwise the stored accounts are
    kept and rows are appended, at most [count] and at most one per email;
    each appended row has status ['active'], zero counters, one of the
    emails, and the encryption of a generated password of 16 characters; the
    activity log is not touched; and when the function returns, it returns
    [True] exactly when at least one row was appended. *)
Theorem register_accounts_accounting (user_agent : option string)
    (attempt_at : nat → attempt) (accounts_rows : option (list csv_row))
    (proxies_rows : list csv_row) (count : Z) (w : world) :
  let run := register_accounts user_agent attempt_at accounts_rows
               proxies_rows count w in
  let emails := default [] (emails_of <$> accounts_rows) in
  (emails = [] → run = (Ok false, w))
  ∧ ∃ new,
      accounts (snd run) = accounts w ++ new ∧
      activity_log (snd run) = activity_log w ∧
      (length new ≤ Z.to_nat count)%nat ∧ (length new ≤ length emails)%nat ∧
      Forall (registered_row emails) new ∧
      ∀ b, fst run = Ok b → b = bool_decide (0 < length new)%nat.
Proof.
  cbv zeta. unfold register_accounts.
  destruct accounts_rows as [rows|]; simpl.
  2: { split; [reflexivity|]. exists []. rewrite app_nil_r.
       repeat split; simpl; try lia; [constructor|].
       intros b [= <-]. reflexivity. }
  destruct (emails_of rows) as [|email emails] eqn:Hemails.
  { split; [reflexivity|]. exists []. rewrite app_nil_r.
    repeat split; simpl; try lia; [constructor|].
    intros b [= <-]. reflexivity. }
  split; [discriminate|].
  unfold bind, get_available_proxies, get, lift, ret.
  destruct (load_proxies_keeps proxies_rows w) as (Hok & Hacc & Hlog).
  destruct (load_proxies proxies_rows w) as [[[]|e] w1]; simpl in *;
    [|discriminate].
  destruct (to_proxies (filter available (proxies w1))) as [[|p ps]|e].
  - exists []. rewrite app_nil_r. simpl.
    repeat split; try lia; try assumption; [constructor|].
    intros b [= <-]. reflexivity.
  - destruct (register_each_accounting user_agent attempt_at
                (email :: emails) (Z.to_nat count) 0 0 w1)
      as (new & Ha & Hl & Hn1 & Hn2 & Hall & Hm).
    exists new.
    destruct (register_each user_agent attempt_at (email :: emails) 0
                (Z.to_nat count) 0 w1) as [[m|e] w2]; simpl in *.
    + rewrite Ha, Hl, Hacc, Hlog. repeat split; try lia; try assumption.
      intros b [= <-]. rewrite (Hm m eq_refl).
      apply bool_decide_ext. lia.
    + rewrite Ha, Hl, Hacc, Hlog. repeat split; try lia; try assumption.
      intros b Hb. discriminate.
  - exists []. rewrite app_nil_r. simpl.
    repeat split; try lia; try assumption; [constructor|].
    intros b Hb. discriminate.
Qed.

End WithCipher.
End RegistrationFacts.

(** ** The further theorems on the sample data *)

Module OnMoreSamples.
Import Py Db Run PyFloat.
Import ProxyManager AccountManager EngagementScheduler TagCipher Samples.
Import ProxyHealth Scheduling Registration MoreSamples.
Import PoolFacts HealthFacts SecretFacts SchedulingFacts.

Ltac by_evaluation :=
  match goal with
  | |- ?P => apply (@bool_decide_unpack P _); vm_compute; exact I
  end.

Lemma rotate_proxies_sweep_witness :
  match to_proxies (filter available (proxies pool_world)) with
  | Raise e => rotate_proxies only_first_answers pool_world
                 = (Raise e, pool_world)
  | Ok _ =>
      ∃ w', rotate_proxies only_first_answers pool_world = (Ok true, w') ∧
        accounts w' = accounts pool_world ∧
        activity_log w' = activity_log pool_world ∧
        length (proxies w') = length (proxies pool_world) ∧
        ∀ k r, proxies pool_world !! k = Some r →
          proxies w' !! k =
          Some (if decide (available r)
                then match to_proxy r with
                     | Ok p => swept only_first_answers p r
                     | Raise _ => r
                     end
                else r)
  end.
Proof.
  apply (rotate_proxies_sweep only_first_answers pool_world). by_evaluation.
Defined.

Lemma tripped_proxy_is_skipped_witness :
  ∃ p, fst (get_next_proxy "2024-05-01T11:00:00"
              (run_ops five_reports pool_world)) = Ok (Some p) ∧
       p_id (row p) ≠ p_id p1.
Proof.
  eexists. split; [vm_compute; reflexivity|].
  apply (tripped_proxy_is_skipped five_reports pool_world 0%nat p1
           "2024-05-01T11:00:00").
  - by_evaluation.
  - reflexivity.
  - reflexivity.
  - reflexivity.
  - repeat constructor; discriminate.
  - vm_compute. lia.
  - vm_compute. reflexivity.
Defined.

Lemma reset_rearms_witness :
  proxies (snd (reset_failure_count (p_id p3) exhausted_world)) !! 0%nat
    = Some (with_health "active" 0 p3) ∧
  fst (get_next_proxy "2024-05-01T11:00:00"
         (snd (reset_failure_count (p_id p3) exhausted_world))) ≠ Ok None.
Proof.
  destruct (reset_rearms exhausted_world 0%nat p3 "2024-05-01T11:00:00")
    as (Hrow & _ & _ & _ & Hsome); [reflexivity|].
  split; [exact Hrow|exact Hsome].
Defined.

Lemma unknown_id_is_ignored_witness :
  _increment_failure_count 7 pool_world = (Ok tt, pool_world) ∧
  reset_failure_count 7 pool_world = (Ok tt, pool_world).
Proof. apply (unknown_id_is_ignored pool_world 7). by_evaluation. Defined.

Lemma consecutive_acquisitions_differ_witness :
  ∃ q, fst (get_next_proxy "2024-05-01T10:00:09"
              (set_proxies
                 [with_last_used (Some "2024-05-01T10:00:05") p1; p2; p3]
                 pool_world)) = Ok (Some q) ∧
       p_id (row q) ≠ p_id (row {| row := p1; password := None |}).
Proof.
  eexists. split; [vm_compute; reflexivity|].
  apply (consecutive_acquisitions_differ "2024-05-01T10:00:05"
           "2024-05-01T10:00:09" pool_world
           (set_proxies
              [with_last_used (Some "2024-05-01T10:00:05") p1; p2; p3]
              pool_world)).
  - vm_compute. reflexivity.
  - intros r Hr [Hst _].
    apply elem_of_cons in Hr as [->|Hr]; [reflexivity|].
    apply elem_of_cons in Hr as [->|Hr]; [reflexivity|].
    apply list_elem_of_singleton in Hr as ->. discriminate Hst.
  - exists p2. split; [right; left|]. split; [|discriminate].
    split; [reflexivity|]. vm_compute. reflexivity.
  - vm_compute. reflexivity.
Defined.

Lemma get_available_proxies_lists_witness :
  snd (get_available_proxies pool_world) = pool_world ∧
  match fst (get_available_proxies pool_world) with
  | Ok ps =>
      (∀ r, r ∈ row <$> ps ↔
            r ∈ proxies pool_world ∧ p_status r = "active" ∧
            p_failure_count r < 5) ∧
      rowid_order ((λ p, p_id (row p)) <$> ps) ∧
      Forall (λ p,
                (truthy (p_password_encrypted (row p)) = false ∧
                 password p = None)
                ∨ (∃ token m,
                     p_password_encrypted (row p) = Some token ∧
                     token ≠ "" ∧
                     fernet_decrypt (encode token) = Some m ∧
                     password p = Some (decode m))) ps
  | Raise e =>
      e = InvalidToken ∧
      Exists (λ r, (p_status r = "active" ∧ p_failure_count r < 5) ∧
                   ∃ token, p_password_encrypted r = Some token ∧
                            token ≠ "" ∧
                            fernet_decrypt (encode token) = None)
        (proxies pool_world)
  end.
Proof.
  apply (get_available_proxies_lists pool_world).
  repeat constructor.
Defined.


Lemma export_all_or_nothing_witness :
  snd (export_accounts two_accounts) = two_accounts ∧
  match fst (export_accounts two_accounts) with
  | Ok out =>
      Forall2
        (λ a x, x_username x = a_username a ∧ x_email x = a_email a ∧
                x_creation_date x = a_creation_date a ∧
                x_last_login x = a_last_login a ∧
                x_proxy_id x = a_proxy_id a ∧
                x_account_status x = a_account_status a ∧
                x_karma_post x = a_karma_post a ∧
                x_karma_comment x = a_karma_comment a ∧
                x_last_post_date x = a_last_post_date a ∧
                x_last_comment_date x = a_last_comment_date a ∧
                x_total_posts x = a_total_posts a ∧
                x_total_comments x = a_total_comments a ∧
                ∃ pw, _decrypt (a_password_encrypted a) = Ok pw ∧
                      x_password x = Some pw)
        (accounts two_accounts) out
  | Raise e =>
      (e = AttributeError ∨ e = InvalidToken) ∧
      Exists (λ a, _decrypt (a_password_encrypted a) = Raise e)
        (accounts two_accounts)
  end.
Proof.
  apply (export_all_or_nothing two_accounts). repeat constructor.
Defined.

Lemma save_account_unique_witness :
  _save_account "alice" "pw" None {| row := p1; password := None |}
    "2024-05-01T10:00:00" None active_world
  = (Raise IntegrityError, active_world).
Proof.
  apply (save_account_unique active_world "alice" "pw" None
           {| row := p1; password := None |} "2024-05-01T10:00:00" None).
  by_evaluation.
Defined.

Lemma window_across_midnight_never_opens_witness :
  _is_within_activity_hours night_shift (hour good_day) = false ∧
  same_data active_world
    (snd (run_job night_shift good_day (PostJob 1 "alice") active_world)) ∧
  (fst (run_job night_shift good_day (PostJob 1 "alice") active_world)
     = Ok CancelJob ∨
   fst (run_job night_shift good_day (PostJob 1 "alice") active_world)
     = Ok ReturnedNone ∨
   ∃ e, fst (run_job night_shift good_day (PostJob 1 "alice") active_world)
          = Raise e ∧
        fst (get_account_details "alice" active_world) = Raise e).
Proof.
  apply (window_across_midnight_never_opens night_shift good_day
           (PostJob 1 "alice") active_world).
  simpl. lia.
Defined.


End OnMoreSamples.
